(** * Gateway resilience core: sliding/fixed window limiters, bounded retry,
      circuit breaker.

    Shallow embedding of
      - api-gateway/src/middleware/slidingRateLimiter.ts
      - api-gateway/src/middleware/rateLimiter.ts
      - api-gateway/src/index.ts  (callSlowServiceWithRetry, /health, /call-slow)

    Time is in milliseconds ([Date.now()]); all JavaScript numbers that occur
    are integers far below 2^53, so they are modelled as [Z], and the template
    literal [`${now}`] is the decimal rendering [pretty now].

    Requests are served one after the other.  The clock of the counter store
    is the clock of the gateway: the commands of a request reach the store at
    the request's own [Date.now()].  The two limiters keep their keys in
    different families (sorted sets for the sliding window, counters for the
    fixed window) and only one of them is mounted at a time. *)

From stdpp Require Import gmap strings list fin_maps pretty sorting.
From Stdlib Require Import ZArith Lia.

Local Open Scope Z_scope.

(** ** Policy constants, as declared in the sources *)

Module Sliding.
Definition WINDOW_MS : Z := 60000.
Definition MAX_REQUESTS : Z := 5.
End Sliding.

Module Fixed.
Definition WINDOW_SECONDS : Z := 60.
Definition MAX_REQUESTS : Z := 5.
End Fixed.

Definition FAILURE_THRESHOLD : Z := 3.
Definition OPEN_TIMEOUT_MS : Z := 10000.

(** ** The counter store (Redis), as far as the gateway uses it

    A sorted set maps members to scores; [ZADD] of a member that is already
    present only updates its score.  Integer counters serve [INCR].  A key may
    carry an expiry deadline; a key whose deadline has passed is deleted the
    next time it is touched. *)

Record Store := mkStore {
  zsets : gmap string (gmap string Z);
  counters : gmap string Z;
  deadlines : gmap string Z
}.

Definition emptyStore : Store := mkStore ∅ ∅ ∅.

Definition expired (now : Z) (key : string) (s : Store) : bool :=
  match deadlines s !! key with
  | Some d => d <? now
  | None => false
  end.

Definition del (key : string) (s : Store) : Store :=
  mkStore (delete key (zsets s)) (delete key (counters s))
          (delete key (deadlines s)).

(** Lazy expiry: what a command sees when it touches [key] at time [now]. *)
Definition touch (now : Z) (key : string) (s : Store) : Store :=
  if expired now key s then del key s else s.

Definition zset_of (key : string) (s : Store) : gmap string Z :=
  default ∅ (zsets s !! key).

(** [ZADD key score member]: number of members newly added. *)
Definition zadd (now : Z) (key : string) (score : Z) (member : string)
    (s : Store) : Z * Store :=
  let s := touch now key s in
  let z := zset_of key s in
  (match z !! member with Some _ => 0 | None => 1 end,
   mkStore (<[key := <[member := score]> z]> (zsets s)) (counters s)
           (deadlines s)).

Definition in_range (lo hi : Z) (e : string * Z) : Prop :=
  lo <= e.2 ∧ e.2 <= hi.

Global Instance in_range_dec lo hi e : Decision (in_range lo hi e).
Proof. unfold in_range. apply _. Defined.

(** [ZREMRANGEBYSCORE key lo hi]: removes the members whose score lies in
    [[lo, hi]] (both inclusive); a sorted set left empty is deleted with its
    deadline. *)
Definition zremrangebyscore (now : Z) (key : string) (lo hi : Z)
    (s : Store) : Z * Store :=
  let s := touch now key s in
  let z := zset_of key s in
  let keep := filter (λ e, ¬ in_range lo hi e) z in
  (Z.of_nat (size z) - Z.of_nat (size keep),
   if decide (keep = ∅)
   then mkStore (delete key (zsets s)) (counters s) (delete key (deadlines s))
   else mkStore (<[key := keep]> (zsets s)) (counters s) (deadlines s)).

(** [ZCARD key]. *)
Definition zcard (now : Z) (key : string) (s : Store) : Z * Store :=
  let s := touch now key s in
  (Z.of_nat (size (zset_of key s)), s).

Definition exists_key (key : string) (s : Store) : bool :=
  bool_decide (is_Some (zsets s !! key)) || bool_decide (is_Some (counters s !! key)).

(** [EXPIRE key seconds]: 1 when the deadline was set, 0 when the key does not
    exist. *)
Definition expire (now : Z) (key : string) (seconds : Z) (s : Store)
    : Z * Store :=
  let s := touch now key s in
  if exists_key key s
  then (1, mkStore (zsets s) (counters s)
                   (<[key := now + seconds * 1000]> (deadlines s)))
  else (0, s).

(** [INCR key]: the value after the increment; a missing key counts as 0. *)
Definition incr (now : Z) (key : string) (s : Store) : Z * Store :=
  let s := touch now key s in
  let v := default 0 (counters s !! key) + 1 in
  (v, mkStore (zsets s) (<[key := v]> (counters s)) (deadlines s)).

(** A pipeline is a batch of commands sent in one round trip; [exec] yields
    one reply per command, in order. *)
Inductive Command :=
  | ZADD (key : string) (score : Z) (member : string)
  | ZREMRANGEBYSCORE (key : string) (lo hi : Z)
  | ZCARD (key : string)
  | EXPIRE (key : string) (seconds : Z).

Definition run_command (now : Z) (c : Command) (s : Store) : Z * Store :=
  match c with
  | ZADD key score member => zadd now key score member s
  | ZREMRANGEBYSCORE key lo hi => zremrangebyscore now key lo hi s
  | ZCARD key => zcard now key s
  | EXPIRE key seconds => expire now key seconds s
  end.

Fixpoint run_pipeline (now : Z) (cmds : list Command) (s : Store)
    : list Z * Store :=
  match cmds with
  | [] => ([], s)
  | c :: cmds =>
      let '(r, s1) := run_command now c s in
      let '(rs, s2) := run_pipeline now cmds s1 in
      (r :: rs, s2)
  end.

(** ** JavaScript values that reach the response *)

Inductive JsNum := Num (z : Z) | NaN.

(** [undefined] coerces to [NaN]. *)
Definition to_number (v : option Z) : JsNum :=
  match v with Some z => Num z | None => NaN end.

Definition js_sub (a b : JsNum) : JsNum :=
  match a, b with Num x, Num y => Num (x - y) | _, _ => NaN end.

Definition Math_max (a b : JsNum) : JsNum :=
  match a, b with Num x, Num y => Num (Z.max x y) | _, _ => NaN end.

(** [a > b]: false as soon as one side is [NaN]. *)
Definition js_gt (a b : JsNum) : bool :=
  match a, b with Num x, Num y => y <? x | _, _ => false end.

#[warnings="-register-all"]
Inductive Json :=
  | JStr (s : string)
  | JNum (n : Z)
  | JObj (fields : list (string * Json)).

Record Res := mkRes {
  status : Z;
  headers : gmap string JsNum;
  body : option Json
}.

(** A fresh Express response: status 200, nothing sent. *)
Definition freshRes : Res := mkRes 200 ∅ None.

(** ** The gateway process and its surroundings *)

Inductive AxiosError :=
  | Timeout                  (* the 500 ms deadline passed *)
  | ConnectionRefused
  | BadStatus (code : Z).    (* a non-2xx reply, which axios rejects *)

Inductive AxiosResult := Resolved (data : Json) | Rejected (e : AxiosError).

Inductive Exn := RedisError | AxiosFailure (e : AxiosError).

(** The module-level variables of index.ts. *)
Record Breaker := mkBreaker {
  failureCount : Z;
  circuitOpen : bool;
  lastFailureTime : Z
}.

Definition initialBreaker : Breaker := mkBreaker 0 false 0.

Record World := mkWorld {
  store : Store;            (* contents of the shared counter store *)
  trips : nat;              (* round trips made to the store so far *)
  breaker : Breaker;
  issued : nat;             (* axios.get calls issued so far *)
  slept : list Z;           (* backoff sleeps, latest first *)
  console : list string;    (* log lines, latest first *)
  res : Res                 (* response of the request being served *)
}.

Definition initialWorld : World :=
  mkWorld emptyStore 0 initialBreaker 0 [] [] freshRes.

Definition with_store (s : Store) (w : World) : World :=
  mkWorld s (trips w) (breaker w) (issued w) (slept w) (console w) (res w).
Definition with_trips (n : nat) (w : World) : World :=
  mkWorld (store w) n (breaker w) (issued w) (slept w) (console w) (res w).
Definition with_breaker (b : Breaker) (w : World) : World :=
  mkWorld (store w) (trips w) b (issued w) (slept w) (console w) (res w).
Definition with_issued (n : nat) (w : World) : World :=
  mkWorld (store w) (trips w) (breaker w) n (slept w) (console w) (res w).
Definition with_slept (l : list Z) (w : World) : World :=
  mkWorld (store w) (trips w) (breaker w) (issued w) l (console w) (res w).
Definition with_console (l : list string) (w : World) : World :=
  mkWorld (store w) (trips w) (breaker w) (issued w) (slept w) l (res w).
Definition with_res (r : Res) (w : World) : World :=
  mkWorld (store w) (trips w) (breaker w) (issued w) (slept w) (console w) r.

(** What the gateway cannot control: whether the k-th round trip to the store
    gets through, and how the k-th downstream attempt ends. *)
Record Env := mkEnv {
  redisUp : nat → bool;
  upstream : nat → AxiosResult
}.

(** ** A state-and-exception monad for the handlers *)

Inductive Outcome (A : Type) := Ok (a : A) | Throw (e : Exn).
Arguments Ok {A} a.
Arguments Throw {A} e.

Definition M (A : Type) : Type := World → Outcome A * World.

Definition ret {A} (a : A) : M A := λ w, (Ok a, w).

Definition bind {A B} (m : M A) (k : A → M B) : M B := λ w,
  match m w with
  | (Ok a, w1) => k a w1
  | (Throw e, w1) => (Throw e, w1)
  end.

Definition try_catch {A} (m : M A) (handler : Exn → M A) : M A := λ w,
  match m w with
  | (Ok a, w1) => (Ok a, w1)
  | (Throw e, w1) => handler e w1
  end.

Definition get {A} (f : World → A) : M A := λ w, (Ok (f w), w).
Definition modify (f : World → World) : M unit := λ w, (Ok tt, f w).

Notation "'let!' x ':=' m 'in' k" := (bind m (λ x, k))
  (at level 10, x name, m at level 100, k at level 200).
Notation "m '>>' k" := (bind m (λ _, k))
  (at level 100, k at level 200, right associativity).

Definition console_log (line : string) : M unit :=
  modify (λ w, with_console (line :: console w) w).

Definition sleep (ms : Z) : M unit :=
  modify (λ w, with_slept (ms :: slept w) w).

Definition setHeader (name : string) (v : JsNum) : M unit :=
  modify (λ w, with_res (mkRes (status (res w)) (<[name := v]> (headers (res w)))
                               (body (res w))) w).

Definition res_status (code : Z) : M unit :=
  modify (λ w, with_res (mkRes code (headers (res w)) (body (res w))) w).

Definition res_json (j : Json) : M unit :=
  modify (λ w, with_res (mkRes (status (res w)) (headers (res w)) (Some j)) w).

(** ** Requests, routes and the limiters' keys *)

(** The two routes covered here.  [index.ts] also serves GET /redis-test, and
    Express answers 404 on any other path; neither is modelled, so a
    statement about every [Request] speaks of these two routes only. *)
Inductive Route := Health | CallSlow.

Record Request := mkRequest {
  ip : string;
  path : Route;
  at_ms : Z      (* Date.now() while the request is served *)
}.

(** What a middleware did with the request: called [next()] or answered. *)
Inductive Flow := NextCalled | Ended.

(** [Math.ceil(a / b)] on integers, [b] positive. *)
Definition Math_ceil_div (a b : Z) : Z := - ((- a) / b).

(** The four commands queued on [redis.pipeline()]: record this request,
    remove outdated requests, count remaining, ensure auto-cleanup. *)
Definition slidingPipeline (now : Z) (key : string) : list Command :=
  [ ZADD key now (pretty now);
    ZREMRANGEBYSCORE key 0 (now - Sliding.WINDOW_MS);
    ZCARD key;
    EXPIRE key (Math_ceil_div Sliding.WINDOW_MS 1000) ].

Definition slidingKey (ip : string) : string := "rate:sw:" +:+ ip.

Definition fixedKey (client : string) : string := "rate:" +:+ client.

(** ** The gateway code *)

Section Gateway.
Context (env : Env).

(** One command, one round trip. *)
Definition redis_call {A} (f : Store → A * Store) : M A := λ w,
  let w1 := with_trips (S (trips w)) w in
  if redisUp env (trips w)
  then let '(a, s) := f (store w) in (Ok a, with_store s w1)
  else (Throw RedisError, w1).

Definition pipeline_exec (now : Z) (cmds : list Command) : M (list Z) :=
  redis_call (run_pipeline now cmds).

(** [axios.get(url, { timeout: 500 })]. *)
Definition axios_get : M Json := λ w,
  let w1 := with_issued (S (issued w)) w in
  match upstream env (issued w) with
  | Resolved data => (Ok data, w1)
  | Rejected e => (Throw (AxiosFailure e), w1)
  end.

(** *** middleware/slidingRateLimiter.ts *)

Definition slidingRateLimiter (now : Z) (ip : string) : M Flow :=
  let key := slidingKey ip in
  try_catch
    (let! results := pipeline_exec now (slidingPipeline now key) in
     let requestCount := to_number (results !! 2%nat) in
     setHeader "X-RateLimit-Limit" (Num Sliding.MAX_REQUESTS) >>
     setHeader "X-RateLimit-Remaining"
       (Math_max (Num 0) (js_sub (Num Sliding.MAX_REQUESTS) requestCount)) >>
     if js_gt requestCount (Num Sliding.MAX_REQUESTS)
     then
       res_status 429 >>
       res_json (JObj [("error", JStr "Too many requests (sliding window)");
                       ("retryAfterMs", JNum Sliding.WINDOW_MS)]) >>
       ret Ended
     else ret NextCalled)
    (λ err,
       console_log "Sliding limiter degraded, allowing request" >>
       ret NextCalled).

(** *** middleware/rateLimiter.ts (fixed window) *)

Definition rateLimiter (now : Z) (ip : string) : M Flow :=
  try_catch
    (let key := fixedKey ip in
     let! currentCount := redis_call (incr now key) in
     (if currentCount =? 1
      then redis_call (expire now key Fixed.WINDOW_SECONDS) >> ret tt
      else ret tt) >>
     setHeader "X-RateLimit-Limit" (Num Fixed.MAX_REQUESTS) >>
     setHeader "X-RateLimit-Remaining"
       (Num (Z.max 0 (Fixed.MAX_REQUESTS - currentCount))) >>
     setHeader "Retry-After" (Num Fixed.WINDOW_SECONDS) >>
     if Fixed.MAX_REQUESTS <? currentCount
     then
       res_status 429 >>
       res_json (JObj [("error", JStr "Too many requests");
                       ("retryAfterSeconds", JNum Fixed.WINDOW_SECONDS)]) >>
       ret Ended
     else ret NextCalled)
    (λ err,
       console_log "Rate limiter degraded, allowing request" >>
       ret NextCalled).

(** *** index.ts *)

Definition callSlowServiceWithRetry : M Json :=
  try_catch
    axios_get
    (λ err,
       console_log "First attempt failed, retrying once..." >>
       sleep 1000 >>
       axios_get).

Definition set_breaker (f : Breaker → Breaker) : M unit :=
  modify (λ w, with_breaker (f (breaker w)) w).

Definition health : M unit :=
  res_json (JObj [("status", JStr "gateway-up")]).

(** The guarded call of the [/call-slow] handler (its try/catch). *)
Definition guardedCall (now : Z) : M unit :=
  try_catch
    (let! data := callSlowServiceWithRetry in
     set_breaker (λ b, mkBreaker 0 (circuitOpen b) (lastFailureTime b)) >>
     res_json data)
    (λ err,
       set_breaker (λ b, mkBreaker (failureCount b + 1) (circuitOpen b)
                                   (lastFailureTime b)) >>
       set_breaker (λ b, mkBreaker (failureCount b) (circuitOpen b) now) >>
       let! n := get (λ w, failureCount (breaker w)) in
       console_log ("Failure count: " +:+ pretty n) >>
       (if FAILURE_THRESHOLD <=? n
        then
          set_breaker (λ b, mkBreaker (failureCount b) true
                                      (lastFailureTime b)) >>
          console_log "Circuit opened to protect system"
        else ret tt) >>
       res_status 504 >>
       res_json (JObj [("error", JStr "Upstream failure")])).

Definition callSlow (now : Z) : M unit :=
  let! open := get (λ w, circuitOpen (breaker w)) in
  if open
  then
    let! last := get (λ w, lastFailureTime (breaker w)) in
    if now - last <? OPEN_TIMEOUT_MS
    then
      res_status 503 >>
      res_json
        (JObj [("error",
                JStr "Circuit open. Service temporarily unavailable.")])
    else
      set_breaker (λ b, mkBreaker (failureCount b) false
                                  (lastFailureTime b)) >>
      set_breaker (λ b, mkBreaker 0 (circuitOpen b) (lastFailureTime b)) >>
      console_log "Circuit half-open: testing dependency" >>
      guardedCall now
  else guardedCall now.

Definition route (req : Request) : M unit :=
  match path req with
  | Health => health
  | CallSlow => callSlow (at_ms req)
  end.

(** [app.use(slidingRateLimiter)] runs before every route. *)
Definition handle (req : Request) : M Res :=
  modify (with_res freshRes) >>
  let! flow := slidingRateLimiter (at_ms req) (ip req) in
  match flow with
  | NextCalled => route req >> get res
  | Ended => get res
  end.

(** Serving requests one after the other, each handler running to its
    response before the next request starts; the responses in order.  Calls
    that overlap (a request arriving while [/call-slow] awaits the downstream)
    are outside this function. *)
Fixpoint serve (reqs : list Request) (w : World) : list (Outcome Res) * World :=
  match reqs with
  | [] => ([], w)
  | r :: reqs =>
      let '(o, w1) := handle r w in
      let '(os, w2) := serve reqs w1 in
      (o :: os, w2)
  end.

End Gateway.

(** ** Notions used in the statements *)

(** The world after a first attempt that failed and a second one that was
    issued: one log line, one backoff sleep, two calls. *)
Definition after_retry (w : World) : World :=
  with_issued (S (S (issued w)))
    (with_slept (1000 :: slept w)
       (with_console ("First attempt failed, retrying once..." :: console w)
          (with_issued (S (issued w)) w))).

(** The world after a guarded call whose two attempts both failed. *)
Definition after_failure (now : Z) (w : World) : World :=
  let w1 := after_retry w in
  let n := failureCount (breaker w1) + 1 in
  let logged := with_console (("Failure count: " +:+ pretty n) :: console w1)
                  (with_breaker (mkBreaker n (circuitOpen (breaker w1)) now) w1) in
  let tripped :=
    if FAILURE_THRESHOLD <=? n
    then with_console ("Circuit opened to protect system" :: console logged)
           (with_breaker (mkBreaker n true now) logged)
    else logged in
  with_res (mkRes 504 (headers (res w))
              (Some (JObj [("error", JStr "Upstream failure")]))) tripped.

(** The world in which the probe runs once the cooldown has passed. *)
Definition half_open (w : World) : World :=
  with_console ("Circuit half-open: testing dependency" :: console w)
    (with_breaker (mkBreaker 0 false (lastFailureTime (breaker w))) w).

Definition circuitOpenBody : Json :=
  JObj [("error", JStr "Circuit open. Service temporarily unavailable.")].

(** The sorted set a request at [now] leaves under [key]: the live set with
    the request's member added, without the entries that left the window. *)
Definition window_after (now : Z) (key : string) (s : Store) : gmap string Z :=
  filter (λ e, ¬ in_range 0 (now - Sliding.WINDOW_MS) e)
         (<[pretty now := now]> (zset_of key (touch now key s))).

Definition slidingCount (now : Z) (key : string) (s : Store) : Z :=
  Z.of_nat (size (window_after now key s)).

Definition record (now : Z) (key : string) (s : Store) : Store :=
  (run_pipeline now (slidingPipeline now key) s).2.

Definition tooManySliding : Json :=
  JObj [("error", JStr "Too many requests (sliding window)");
        ("retryAfterMs", JNum Sliding.WINDOW_MS)].

Definition slidingHeaders (count : Z) (h : gmap string JsNum) : gmap string JsNum :=
  <["X-RateLimit-Remaining" := Num (Z.max 0 (Sliding.MAX_REQUESTS - count))]>
    (<["X-RateLimit-Limit" := Num Sliding.MAX_REQUESTS]> h).

(** The world once the pipeline has been executed for a request at [now]. *)
Definition recorded (now : Z) (ip : string) (w : World) : World :=
  with_store (record now (slidingKey ip) (store w)) (with_trips (S (trips w)) w).

(** The world once the limiter gave up on the store. *)
Definition degraded (line : string) (w : World) : World :=
  with_console (line :: console w) (with_trips (S (trips w)) w).

Definition healthAt (client : string) (now : Z) : Request :=
  mkRequest client Health now.

Definition statusOf (o : Outcome Res) : option Z :=
  match o with Ok r => Some (status r) | Throw _ => None end.

Definition healthBody : Json := JObj [("status", JStr "gateway-up")].

Definition degradedLine : string := "Sliding limiter degraded, allowing request".

(** The limiter run on the requests of one client, at the times [ts]. *)
Fixpoint evaluate (env : Env) (client : string) (ts : list Z) (w : World)
    : list (Outcome Flow) * World :=
  match ts with
  | [] => ([], w)
  | t :: ts =>
      let '(o, w1) := slidingRateLimiter env t client w in
      let '(os, w2) := evaluate env client ts w1 in
      (o :: os, w2)
  end.

(** The same on the store alone, for a store that answers: [true] stands for
    a rejection. *)
Fixpoint decisions (key : string) (ts : list Z) (s : Store) : list bool :=
  match ts with
  | [] => []
  | t :: ts =>
      (Sliding.MAX_REQUESTS <? slidingCount t key s)
        :: decisions key ts (record t key s)
  end.

Definition flowOf (rejected : bool) : Outcome Flow :=
  Ok (if rejected then Ended else NextCalled).


(** [remembers key seen last s]: [seen] are the times of the requests made so
    far, the latest at [last]; those still inside the window of the latest
    are in the store under their own member, and the key is due no earlier
    than a minute after any of them. *)
Definition remembers (key : string) (seen : list Z) (last : Z) (s : Store)
    : Prop :=
  (∀ u, u ∈ seen → u <= last) ∧
  (∀ u, u ∈ seen → last - Sliding.WINDOW_MS < u →
     zset_of key s !! pretty u = Some u) ∧
  (∀ d, deadlines s !! key = Some d → ∀ u, u ∈ seen → u + 60000 <= d).

Definition fixedCount (now : Z) (key : string) (s : Store) : Z :=
  (incr now key s).1.

(** The store after INCR and, on a count of 1, EXPIRE. *)
Definition fixedRecord (now : Z) (key : string) (s : Store) : Store :=
  if fixedCount now key s =? 1
  then (expire now key Fixed.WINDOW_SECONDS (incr now key s).2).2
  else (incr now key s).2.

Fixpoint evaluateFixed (env : Env) (client : string) (ts : list Z) (w : World)
    : list (Outcome Flow) * World :=
  match ts with
  | [] => ([], w)
  | t :: ts =>
      let '(o, w1) := rateLimiter env t client w in
      let '(os, w2) := evaluateFixed env client ts w1 in
      (o :: os, w2)
  end.

Fixpoint fixedDecisions (key : string) (ts : list Z) (s : Store) : list bool :=
  match ts with
  | [] => []
  | t :: ts =>
      (Fixed.MAX_REQUESTS <? fixedCount t key s)
        :: fixedDecisions key ts (fixedRecord t key s)
  end.

(** The k-th downstream attempt fails. *)
Definition failsAt (env : Env) (k : nat) : Prop :=
  ∃ e, upstream env k = Rejected e.

(** ** Candidate properties that are refuted below *)

Section Readings.
Context (env : Env).

(** The reading of C1 on the code: a probe (the call let through after the
    cooldown) whose attempts fail puts the breaker back to open, so that a
    call within the cooldown after it is answered 503 without a downstream
    attempt. *)
Definition probe_failure_reopens : Prop :=
  ∀ w now,
    circuitOpen (breaker w) = true →
    OPEN_TIMEOUT_MS <= now - lastFailureTime (breaker w) →
    failsAt env (issued w) → failsAt env (S (issued w)) →
    let w1 := (callSlow env now w).2 in
    circuitOpen (breaker w1) = true ∧
    lastFailureTime (breaker w1) = now ∧
    ∀ now', now <= now' → now' - now < OPEN_TIMEOUT_MS →
      let w2 := (callSlow env now' w1).2 in
      status (res w2) = 503 ∧ issued w2 = issued w1.

(** The reading of C4 on the code, for a classification [isTransient] of
    failures: a first attempt failing with an error classified as not
    transient is surfaced at once, with no second attempt and no sleep. *)
Definition permanent_errors_not_retried (isTransient : AxiosError → bool)
    : Prop :=
  ∀ w e,
    upstream env (issued w) = Rejected e →
    isTransient e = false →
    let r := callSlowServiceWithRetry env w in
    r.1 = Throw (AxiosFailure e) ∧
    issued r.2 = S (issued w) ∧
    slept r.2 = slept w.

(** The reading of C2 on the code: every GET /health is answered 200 and
    leaves the counter store alone. *)
Definition health_bypasses_limiter : Prop :=
  ∀ w client now,
    let r := handle env (healthAt client now) w in
    statusOf r.1 = Some 200 ∧ store r.2 = store w.


End Readings.

(** ** Concrete surroundings and worlds *)

(** What the slow service answers. *)
Definition slowPayload : Json :=
  JObj [("status", JStr "slow response"); ("delay", JNum 800)].

(** The store answers, every downstream attempt times out. *)
Definition alwaysTimeout : Env := mkEnv (λ _, true) (λ _, Rejected Timeout).

(** The breaker open since time 0. *)
Definition trippedWorld : World :=
  with_breaker (mkBreaker 3 true 0) initialWorld.

(** A downstream that fails once and then answers. *)
Definition failsOnce : Env :=
  mkEnv (λ _, true)
        (λ k, match k with
              | O => Rejected Timeout
              | _ => Resolved slowPayload
              end).

(** A downstream that refuses every request as malformed. *)
Definition alwaysBadRequest : Env :=
  mkEnv (λ _, true) (λ _, Rejected (BadStatus 400)).

(** Server-side errors and network failures are transient, client errors are
    not. *)
Definition transientByKind (e : AxiosError) : bool :=
  match e with
  | Timeout | ConnectionRefused => true
  | BadStatus code => 500 <=? code
  end.

(** The store answers and so does the downstream. *)
Definition storeUp : Env := mkEnv (λ _, true) (λ _, Resolved slowPayload).

(** The store cannot be reached at all; the downstream answers. *)
Definition storeDown : Env := mkEnv (λ _, false) (λ _, Resolved slowPayload).

(** The first round trip gets through, the following ones do not. *)
Definition storeDownAfterOne : Env :=
  mkEnv (λ k, match k with O => true | _ => false end)
        (λ _, Resolved slowPayload).

(** The world after five GET /health of one client, at 1, 2, 3, 4 and 5 ms. *)
Definition afterFive : World :=
  (serve storeUp (map (healthAt "1.2.3.4") [1; 2; 3; 4; 5]) initialWorld).2.

(** ** Further notions: counts, windows and the breaker's invariant *)

(** The counts the sliding-window limiter reports for the requests of one key
    at the times [ts], on the store alone. *)
Fixpoint counts (key : string) (ts : list Z) (s : Store) : list Z :=
  match ts with
  | [] => []
  | t :: ts => slidingCount t key s :: counts key ts (record t key s)
  end.

(** The sliding window as arithmetic on the request times: for each request,
    how many requests so far, itself included, lie in the trailing window
    [(t - WINDOW_MS, t]].  [seen] holds the earlier times. *)
Fixpoint windowCounts (seen ts : list Z) : list Z :=
  match ts with
  | [] => []
  | t :: ts =>
      Z.of_nat (length (filter (λ u, t - Sliding.WINDOW_MS < u) (t :: seen)))
        :: windowCounts (t :: seen) ts
  end.

(** [mirrors key seen last s]: the sorted set of [key] holds exactly the
    requests of [seen] that are inside the window of the latest one, each
    under its own member. *)
Definition mirrors (key : string) (seen : list Z) (last : Z) (s : Store)
    : Prop :=
  (∀ u, u ∈ seen → 0 <= u <= last) ∧
  (∀ m sc, zset_of key s !! m = Some sc ↔
     ∃ u, u ∈ seen ∧ last - Sliding.WINDOW_MS < u ∧ m = pretty u ∧ sc = u) ∧
  (∀ d, deadlines s !! key = Some d → ∀ u, u ∈ seen → u + 60000 <= d).

(** What GET /health is answered when the limiter reports [count]. *)
Definition healthResponse (count : Z) : Res :=
  if Sliding.MAX_REQUESTS <? count
  then mkRes 429 (slidingHeaders count ∅) (Some tooManySliding)
  else mkRes 200 (slidingHeaders count ∅) (Some healthBody).

(** The counts the fixed-window limiter reports, on the store alone. *)
Fixpoint fixedCounts (key : string) (ts : list Z) (s : Store) : list Z :=
  match ts with
  | [] => []
  | t :: ts => fixedCount t key s :: fixedCounts key ts (fixedRecord t key s)
  end.

(** The tally never leaves [0, FAILURE_THRESHOLD] and the breaker is open
    exactly when the tally has reached the threshold. *)
Definition breakerInv (b : Breaker) : Prop :=
  0 <= failureCount b <= FAILURE_THRESHOLD ∧
  (circuitOpen b = true ↔ failureCount b = FAILURE_THRESHOLD).

Definition upstreamFailure : Json := JObj [("error", JStr "Upstream failure")].

Definition callSlowAt (client : string) (now : Z) : Request :=
  mkRequest client CallSlow now.

(** The store answers; the downstream fails twice, answers, and fails from
    then on. *)
Definition flakyDownstream : Env :=
  mkEnv (λ _, true)
        (λ k, match k with
              | 2%nat => Resolved slowPayload
              | _ => Rejected Timeout
              end).

(** The first round trip (an INCR) gets through, the second (its EXPIRE) does
    not, all later ones do. *)
Definition expireLost : Env :=
  mkEnv (λ k, match k with 1%nat => false | _ => true end)
        (λ _, Resolved slowPayload).

Definition remainingOf (o : Outcome Res) : option JsNum :=
  match o with
  | Ok r => headers r !! "X-RateLimit-Remaining"
  | Throw _ => None
  end.

Fixpoint fixedStore (key : string) (ts : list Z) (s : Store) : Store :=
  match ts with
  | [] => s
  | t :: ts => fixedStore key ts (fixedRecord t key s)
  end.

(** The world after a guarded call that succeeded at once. *)
Definition after_success (data : Json) (w : World) : World :=
  with_res (mkRes (status (res w)) (headers (res w)) (Some data))
    (with_breaker (mkBreaker 0 (circuitOpen (breaker w))
                             (lastFailureTime (breaker w)))
       (with_issued (S (issued w)) w)).

(** The world after a guarded call rescued by the retry. *)
Definition after_rescue (data : Json) (w : World) : World :=
  with_res (mkRes (status (res w)) (headers (res w)) (Some data))
    (with_breaker (mkBreaker 0 (circuitOpen (breaker w))
                             (lastFailureTime (breaker w)))
       (after_retry w)).

(** What [/call-slow] answers, as a function of the breaker and of how the
    (at most two) downstream attempts end. *)
Definition callSlowOutcome (env : Env) (now : Z) (w : World) : Z * option Json :=
  if circuitOpen (breaker w)
     && (now - lastFailureTime (breaker w) <? OPEN_TIMEOUT_MS)
  then (503, Some circuitOpenBody)
  else
    match upstream env (issued w) with
    | Resolved data => (200, Some data)
    | Rejected _ =>
        match upstream env (S (issued w)) with
        | Resolved data => (200, Some data)
        | Rejected _ => (504, Some upstreamFailure)
        end
    end.

(** The breaker closed with two failures on the tally. *)
Definition twoFailures : World :=
  with_breaker (mkBreaker 2 false 3) initialWorld.

Definition tooManyFixed : Json :=
  JObj [("error", JStr "Too many requests");
        ("retryAfterSeconds", JNum Fixed.WINDOW_SECONDS)].

(** * Properties *)

(** ** The resilient caller: [callSlowServiceWithRetry] *)

Section Caller.
Context (env : Env).

Lemma retry_first_ok w data :
  upstream env (issued w) = Resolved data →
  callSlowServiceWithRetry env w = (Ok data, with_issued (S (issued w)) w).
Proof.
  intros H. unfold callSlowServiceWithRetry, try_catch, axios_get.
  now rewrite H.
Qed.

Lemma retry_second w e :
  upstream env (issued w) = Rejected e →
  callSlowServiceWithRetry env w =
    match upstream env (S (issued w)) with
    | Resolved data => (Ok data, after_retry w)
    | Rejected e2 => (Throw (AxiosFailure e2), after_retry w)
    end.
Proof.
  intros H. unfold callSlowServiceWithRetry, try_catch, axios_get.
  rewrite H. cbn.
  destruct (upstream env (S (issued w))); reflexivity.
Qed.

Lemma retry_issued_bounds w :
  (issued w < issued (callSlowServiceWithRetry env w).2
   ≤ issued w + 2)%nat.
Proof.
  destruct (upstream env (issued w)) as [d|e] eqn:H1.
  - rewrite (retry_first_ok _ _ H1). cbn. lia.
  - rewrite (retry_second _ _ H1).
    destruct (upstream env (S (issued w))); cbn; lia.
Qed.

End Caller.

(** ** The circuit breaker of [/call-slow] *)

Section BreakerFacts.
Context (env : Env).

Lemma guardedCall_failure now w :
  failsAt env (issued w) → failsAt env (S (issued w)) →
  guardedCall env now w = (Ok tt, after_failure now w).
Proof.
  intros [e1 H1] [e2 H2].
  unfold guardedCall, try_catch, bind.
  rewrite (retry_second _ _ _ H1), H2. cbn.
  unfold after_failure. cbn.
  destruct (FAILURE_THRESHOLD <=? failureCount (breaker w) + 1); reflexivity.
Qed.

Lemma after_failure_breaker now w :
  breaker (after_failure now w) =
    mkBreaker (failureCount (breaker w) + 1)
              (circuitOpen (breaker w)
               || (FAILURE_THRESHOLD <=? failureCount (breaker w) + 1))
              now.
Proof.
  unfold after_failure. cbn.
  destruct (FAILURE_THRESHOLD <=? failureCount (breaker w) + 1); cbn;
    [now rewrite orb_true_r | now rewrite orb_false_r].
Qed.

Lemma after_failure_issued now w :
  issued (after_failure now w) = S (S (issued w)).
Proof.
  unfold after_failure. cbn.
  destruct (FAILURE_THRESHOLD <=? failureCount (breaker w) + 1); reflexivity.
Qed.

Lemma after_failure_res now w :
  res (after_failure now w) =
    mkRes 504 (headers (res w))
          (Some (JObj [("error", JStr "Upstream failure")])).
Proof. reflexivity. Qed.

(** A first attempt that succeeds heals the tally and passes the payload. *)
Lemma guardedCall_success now w data :
  upstream env (issued w) = Resolved data →
  guardedCall env now w =
    (Ok tt,
     with_res (mkRes (status (res w)) (headers (res w)) (Some data))
       (with_breaker (mkBreaker 0 (circuitOpen (breaker w))
                                (lastFailureTime (breaker w)))
          (with_issued (S (issued w)) w))).
Proof.
  intros H. unfold guardedCall, try_catch, bind.
  now rewrite (retry_first_ok _ _ _ H).
Qed.

Lemma guardedCall_issued now w :
  (issued w < issued (guardedCall env now w).2)%nat.
Proof.
  unfold guardedCall, try_catch, bind.
  pose proof (retry_issued_bounds env w) as Hb.
  destruct (callSlowServiceWithRetry env w) as [[d|e] w1]; cbn in *.
  - lia.
  - destruct (FAILURE_THRESHOLD <=? failureCount (breaker w1) + 1); cbn; lia.
Qed.

Lemma callSlow_closed now w :
  circuitOpen (breaker w) = false →
  callSlow env now w = guardedCall env now w.
Proof. intros H. unfold callSlow, bind, get. now rewrite H. Qed.

(** Open and still cooling down: 503, nothing else changes. *)
Lemma callSlow_rejects now w :
  circuitOpen (breaker w) = true →
  now - lastFailureTime (breaker w) < OPEN_TIMEOUT_MS →
  callSlow env now w =
    (Ok tt,
     with_res
       (mkRes 503 (headers (res w))
          (Some (JObj [("error",
             JStr "Circuit open. Service temporarily unavailable.")]))) w).
Proof.
  intros Ho Ht. unfold callSlow, bind, get. rewrite Ho.
  apply Z.ltb_lt in Ht. rewrite Ht. destruct w; reflexivity.
Qed.

Lemma callSlow_probe now w :
  circuitOpen (breaker w) = true →
  OPEN_TIMEOUT_MS <= now - lastFailureTime (breaker w) →
  callSlow env now w = guardedCall env now (half_open w).
Proof.
  intros Ho Ht. unfold callSlow, bind, get. rewrite Ho.
  apply Z.ltb_ge in Ht. rewrite Ht. reflexivity.
Qed.

End BreakerFacts.

Section BreakerClaims.
Context (env : Env).

(** A call that goes through while the breaker is closed and whose two
    attempts fail: the tally grows by one, the time of the call is recorded,
    and the breaker opens once the tally reaches the threshold. *)
Lemma callSlow_closed_failure now w :
  circuitOpen (breaker w) = false →
  failsAt env (issued w) → failsAt env (S (issued w)) →
  let w1 := (callSlow env now w).2 in
  breaker w1 =
    mkBreaker (failureCount (breaker w) + 1)
              (FAILURE_THRESHOLD <=? failureCount (breaker w) + 1) now ∧
  issued w1 = S (S (issued w)) ∧
  status (res w1) = 504.
Proof.
  intros Hc H1 H2. cbn zeta. rewrite callSlow_closed by exact Hc.
  rewrite guardedCall_failure by assumption. cbn [snd].
  rewrite after_failure_breaker, after_failure_issued, Hc.
  repeat split.
Qed.

(** Three failed calls in a row, starting closed with an empty tally. *)
Lemma three_failures w t1 t2 t3 :
  circuitOpen (breaker w) = false →
  failureCount (breaker w) = 0 →
  (∀ k, (issued w ≤ k < issued w + 6)%nat → failsAt env k) →
  let w1 := (callSlow env t1 w).2 in
  let w2 := (callSlow env t2 w1).2 in
  let w3 := (callSlow env t3 w2).2 in
  breaker w1 = mkBreaker 1 false t1 ∧
  breaker w2 = mkBreaker 2 false t2 ∧
  breaker w3 = mkBreaker 3 true t3 ∧
  issued w3 = (issued w + 6)%nat.
Proof.
  intros Hc Hn Hf w1.
  destruct (callSlow_closed_failure t1 w Hc) as (B1 & I1 & _);
    [apply Hf; lia | apply Hf; lia |].
  fold w1 in B1, I1. rewrite Hn in B1.
  change (breaker w1 = mkBreaker 1 false t1) in B1.
  intros w2.
  destruct (callSlow_closed_failure t2 w1) as (B2 & I2 & _);
    [now rewrite B1 | apply Hf; lia | apply Hf; lia |].
  fold w2 in B2, I2. rewrite B1 in B2.
  change (breaker w2 = mkBreaker 2 false t2) in B2.
  intros w3.
  destruct (callSlow_closed_failure t3 w2) as (B3 & I3 & _);
    [now rewrite B2 | apply Hf; lia | apply Hf; lia |].
  fold w3 in B3, I3. rewrite B2 in B3.
  change (breaker w3 = mkBreaker 3 true t3) in B3.
  repeat split; try assumption. lia.
Qed.

(** C5. Starting closed with an empty failure tally, the breaker is still
    closed after one and after two failed calls and open after the third
    (FAILURE_THRESHOLD = 3), with the time of the third call recorded.  A
    call arriving less than OPEN_TIMEOUT_MS (10 s) after that time is
    answered 503 "Circuit open" and changes nothing else: no downstream
    attempt is issued and the breaker keeps its state.  A call arriving
    OPEN_TIMEOUT_MS or more after it is let through: the downstream
    operation is invoked. *)
Theorem breaker_opens_at_threshold w t1 t2 t3 :
  circuitOpen (breaker w) = false →
  failureCount (breaker w) = 0 →
  (∀ k, (issued w ≤ k < issued w + 6)%nat → failsAt env k) →
  let w1 := (callSlow env t1 w).2 in
  let w2 := (callSlow env t2 w1).2 in
  let w3 := (callSlow env t3 w2).2 in
  circuitOpen (breaker w1) = false ∧
  circuitOpen (breaker w2) = false ∧
  breaker w3 = mkBreaker FAILURE_THRESHOLD true t3 ∧
  (∀ now, now - t3 < OPEN_TIMEOUT_MS →
     callSlow env now w3 =
       (Ok tt, with_res (mkRes 503 (headers (res w3)) (Some circuitOpenBody))
                 w3)) ∧
  (∀ now, OPEN_TIMEOUT_MS <= now - t3 →
     (issued w3 < issued (callSlow env now w3).2)%nat).
Proof.
  intros Hc Hn Hf.
  destruct (three_failures w t1 t2 t3 Hc Hn Hf) as (B1 & B2 & B3 & _).
  cbn zeta in *.
  set (w3 := (callSlow env t3 _).2) in *.
  rewrite B1, B2. repeat split; try assumption.
  - intros now Hlt. apply callSlow_rejects; rewrite B3; [reflexivity|exact Hlt].
  - intros now Hge. rewrite callSlow_probe
      by (rewrite B3; first [reflexivity | exact Hge]).
    apply (guardedCall_issued env now (half_open w3)).
Qed.

(** C1, what the code does.  When the cooldown has passed, the handler
    closes the breaker and clears the tally before the probe; a failing
    probe therefore leaves the breaker closed with a tally of 1 and the time
    of the probe recorded, and is answered 504.  The call that follows is
    not rejected: it invokes the downstream operation whenever it arrives.
    The breaker is open again, with the time of the last call recorded, once
    FAILURE_THRESHOLD calls in a row have failed, the probe included. *)
Theorem probe_failure_counts_once w now t2 t3 :
  circuitOpen (breaker w) = true →
  OPEN_TIMEOUT_MS <= now - lastFailureTime (breaker w) →
  (∀ k, (issued w ≤ k < issued w + 6)%nat → failsAt env k) →
  let w1 := (callSlow env now w).2 in
  let w2 := (callSlow env t2 w1).2 in
  let w3 := (callSlow env t3 w2).2 in
  breaker w1 = mkBreaker 1 false now ∧
  status (res w1) = 504 ∧
  (∀ now', (issued w1 < issued (callSlow env now' w1).2)%nat) ∧
  breaker w2 = mkBreaker 2 false t2 ∧
  breaker w3 = mkBreaker FAILURE_THRESHOLD true t3.
Proof.
  intros Ho Ht Hf.
  assert (Ep : callSlow env now w = callSlow env now (half_open w)).
  { rewrite callSlow_probe by assumption.
    symmetry. now apply callSlow_closed. }
  destruct (three_failures (half_open w) now t2 t3) as (B1 & B2 & B3 & _);
    [reflexivity | reflexivity | exact Hf |].
  cbn zeta in *. rewrite Ep.
  set (w1 := (callSlow env now (half_open w)).2) in *.
  repeat split; try assumption.
  - subst w1.
    apply (callSlow_closed_failure now (half_open w));
      [reflexivity | apply Hf; cbn; lia | apply Hf; cbn; lia].
  - intros now'. rewrite callSlow_closed by now rewrite B1.
    apply guardedCall_issued.
Qed.

End BreakerClaims.

Lemma breaker_opens_at_threshold_witness :
  let w1 := (callSlow alwaysTimeout 1 initialWorld).2 in
  let w2 := (callSlow alwaysTimeout 2 w1).2 in
  let w3 := (callSlow alwaysTimeout 3 w2).2 in
  circuitOpen (breaker w1) = false ∧
  circuitOpen (breaker w2) = false ∧
  breaker w3 = mkBreaker FAILURE_THRESHOLD true 3 ∧
  (∀ now, now - 3 < OPEN_TIMEOUT_MS →
     callSlow alwaysTimeout now w3 =
       (Ok tt, with_res (mkRes 503 (headers (res w3)) (Some circuitOpenBody))
                 w3)) ∧
  (∀ now, OPEN_TIMEOUT_MS <= now - 3 →
     (issued w3 < issued (callSlow alwaysTimeout now w3).2)%nat).
Proof.
  apply (breaker_opens_at_threshold alwaysTimeout initialWorld 1 2 3).
  - reflexivity.
  - reflexivity.
  - intros k _. exists Timeout. reflexivity.
Defined.

Lemma probe_failure_counts_once_witness :
  let w1 := (callSlow alwaysTimeout 10000 trippedWorld).2 in
  let w2 := (callSlow alwaysTimeout 10001 w1).2 in
  let w3 := (callSlow alwaysTimeout 10002 w2).2 in
  breaker w1 = mkBreaker 1 false 10000 ∧
  status (res w1) = 504 ∧
  (∀ now', (issued w1 < issued (callSlow alwaysTimeout now' w1).2)%nat) ∧
  breaker w2 = mkBreaker 2 false 10001 ∧
  breaker w3 = mkBreaker FAILURE_THRESHOLD true 10002.
Proof.
  apply (probe_failure_counts_once alwaysTimeout trippedWorld 10000 10001 10002).
  - reflexivity.
  - vm_compute. discriminate.
  - intros k _. exists Timeout. reflexivity.
Defined.

(** C1 fails on the code: with the breaker open since time 0 and a downstream
    that always times out, the probe at 10000 fails and leaves the breaker
    closed; the call at 10001 is not answered 503. *)
Lemma probe_failure_does_not_reopen : ¬ probe_failure_reopens alwaysTimeout.
Proof.
  intros H.
  destruct (H trippedWorld 10000) as (Hopen & _).
  - reflexivity.
  - vm_compute. discriminate.
  - exists Timeout. reflexivity.
  - exists Timeout. reflexivity.
  - vm_compute in Hopen. discriminate.
Qed.

(** ** Claims on the resilient caller *)

Section CallerClaims.
Context (env : Env).

(** C8. [callSlowServiceWithRetry] issues at least one and at most two
    attempts, whatever the downstream does (the attempt budget of 2 is
    written into the function: one original, one retry).  If the operation
    always fails, the caller's failure is the failure of the second attempt
    and exactly two attempts were issued.  If the first attempt fails and the
    second succeeds, the caller returns that success after exactly two
    attempts, with one backoff sleep of 1000 ms in between. *)
Theorem retry_at_most_two_attempts w :
  let r := callSlowServiceWithRetry env w in
  (issued w < issued r.2 ≤ issued w + 2)%nat ∧
  ((∀ k, failsAt env k) →
     ∃ e, upstream env (S (issued w)) = Rejected e ∧
          r.1 = Throw (AxiosFailure e) ∧
          issued r.2 = (issued w + 2)%nat) ∧
  (∀ data, failsAt env (issued w) →
     upstream env (S (issued w)) = Resolved data →
     r.1 = Ok data ∧ issued r.2 = (issued w + 2)%nat ∧
     slept r.2 = 1000 :: slept w).
Proof.
  cbn zeta. split; [apply retry_issued_bounds|]. split.
  - intros Hall. destruct (Hall (issued w)) as [e1 H1].
    destruct (Hall (S (issued w))) as [e2 H2].
    exists e2. rewrite (retry_second _ _ _ H1), H2. cbn.
    repeat split. lia.
  - intros data [e1 H1] H2. rewrite (retry_second _ _ _ H1), H2. cbn.
    repeat split. lia.
Qed.

(** C4, as the code has it.  The caller has no classification of failures:
    whatever error the first attempt fails with, it logs one line ("First
    attempt failed, retrying once..."), sleeps 1000 ms once and issues exactly
    one second attempt, whose outcome is the caller's outcome. *)
Theorem retry_whatever_the_error w e :
  upstream env (issued w) = Rejected e →
  let r := callSlowServiceWithRetry env w in
  issued r.2 = (issued w + 2)%nat ∧
  slept r.2 = 1000 :: slept w ∧
  console r.2 = "First attempt failed, retrying once..." :: console w ∧
  r.1 = match upstream env (S (issued w)) with
        | Resolved data => Ok data
        | Rejected e2 => Throw (AxiosFailure e2)
        end.
Proof.
  intros H1. cbn zeta. rewrite (retry_second _ _ _ H1).
  destruct (upstream env (S (issued w))); cbn; repeat split; lia.
Qed.

End CallerClaims.

Lemma retry_at_most_two_attempts_witness :
  (∃ e, upstream alwaysTimeout 1 = Rejected e ∧
        (callSlowServiceWithRetry alwaysTimeout initialWorld).1
          = Throw (AxiosFailure e) ∧
        issued (callSlowServiceWithRetry alwaysTimeout initialWorld).2 = 2%nat) ∧
  (callSlowServiceWithRetry failsOnce initialWorld).1 = Ok slowPayload ∧
  issued (callSlowServiceWithRetry failsOnce initialWorld).2 = 2%nat ∧
  slept (callSlowServiceWithRetry failsOnce initialWorld).2 = [1000].
Proof.
  split.
  - apply (retry_at_most_two_attempts alwaysTimeout initialWorld).
    intros k. exists Timeout. reflexivity.
  - apply (retry_at_most_two_attempts failsOnce initialWorld).
    + exists Timeout. reflexivity.
    + reflexivity.
Defined.

Lemma retry_whatever_the_error_witness :
  issued (callSlowServiceWithRetry alwaysBadRequest initialWorld).2 = 2%nat ∧
  slept (callSlowServiceWithRetry alwaysBadRequest initialWorld).2 = [1000] ∧
  console (callSlowServiceWithRetry alwaysBadRequest initialWorld).2
    = ["First attempt failed, retrying once..."] ∧
  (callSlowServiceWithRetry alwaysBadRequest initialWorld).1
    = Throw (AxiosFailure (BadStatus 400)).
Proof.
  apply (retry_whatever_the_error alwaysBadRequest initialWorld (BadStatus 400)).
  reflexivity.
Defined.

(** C4 fails on the code: a 400 reply, not transient under [transientByKind],
    is retried all the same: two attempts are issued, not one. *)
Lemma permanent_error_is_retried :
  ¬ permanent_errors_not_retried alwaysBadRequest transientByKind.
Proof.
  intros H.
  destruct (H initialWorld (BadStatus 400)) as (_ & Hissued & _).
  - reflexivity.
  - reflexivity.
  - vm_compute in Hissued. discriminate.
Qed.

(** ** The sliding-window pipeline on the store *)

Lemma touch_not_expired now key s : expired now key (touch now key s) = false.
Proof.
  unfold touch. destruct (expired now key s) eqn:E; [|exact E].
  unfold expired, del. cbn. now rewrite lookup_delete_eq.
Qed.

Lemma touch_fixed now key s : expired now key s = false → touch now key s = s.
Proof. intros E. unfold touch. now rewrite E. Qed.

Lemma fresh_in_window now : ¬ in_range 0 (now - Sliding.WINDOW_MS) (pretty now, now).
Proof. unfold in_range, Sliding.WINDOW_MS. cbn. lia. Qed.

Lemma window_after_insert now key s :
  window_after now key s =
    <[pretty now := now]>
      (filter (λ e, ¬ in_range 0 (now - Sliding.WINDOW_MS) e)
              (zset_of key (touch now key s))).
Proof.
  unfold window_after. rewrite map_filter_insert_True; [reflexivity|].
  apply fresh_in_window.
Qed.

Lemma window_after_fresh now key s : window_after now key s !! pretty now = Some now.
Proof. rewrite window_after_insert. apply lookup_insert_eq. Qed.

Lemma window_after_nonempty now key s : window_after now key s ≠ ∅.
Proof.
  intros E. pose proof (window_after_fresh now key s) as H.
  rewrite E in H. now rewrite lookup_empty in H.
Qed.

(** What [exec] does to the store and what it replies. *)
Lemma slidingPipeline_run now key s :
  ∃ added removed,
    run_pipeline now (slidingPipeline now key) s =
      ([added; removed; slidingCount now key s; 1],
       mkStore (<[key := window_after now key s]> (zsets (touch now key s)))
               (counters (touch now key s))
               (<[key := now + 60000]> (deadlines (touch now key s)))).
Proof.
  pose proof (touch_not_expired now key s) as Hlive.
  set (s0 := touch now key s) in *.
  set (z1 := <[pretty now := now]> (zset_of key s0)).
  set (s1 := mkStore (<[key := z1]> (zsets s0)) (counters s0) (deadlines s0)).
  assert (E1 : (zadd now key now (pretty now) s).2 = s1) by reflexivity.
  assert (L1 : touch now key s1 = s1) by (apply touch_fixed; exact Hlive).
  assert (Z1 : zset_of key s1 = z1).
  { unfold zset_of, s1. cbn. now rewrite lookup_insert_eq. }
  set (s2 := mkStore (<[key := window_after now key s]> (zsets s0))
                     (counters s0) (deadlines s0)).
  assert (E2 : (zremrangebyscore now key 0 (now - Sliding.WINDOW_MS) s1).2 = s2).
  { unfold zremrangebyscore. rewrite L1, Z1. cbn [snd].
    change (filter _ z1) with (window_after now key s).
    destruct (decide (window_after now key s = ∅)) as [E|_];
      [now apply window_after_nonempty in E|].
    unfold s2, s1. cbn. now rewrite insert_insert_eq. }
  assert (L2 : touch now key s2 = s2) by (apply touch_fixed; exact Hlive).
  assert (Z2 : zset_of key s2 = window_after now key s).
  { unfold zset_of, s2. cbn. now rewrite lookup_insert_eq. }
  exists (zadd now key now (pretty now) s).1,
         (zremrangebyscore now key 0 (now - Sliding.WINDOW_MS) s1).1.
  unfold slidingPipeline, run_pipeline, run_command.
  destruct (zadd now key now (pretty now) s) as [a sa] eqn:Ea.
  cbn [fst snd] in *. subst sa.
  destruct (zremrangebyscore now key 0 (now - Sliding.WINDOW_MS) s1)
    as [r sr] eqn:Er.
  cbn [fst snd] in *. subst sr.
  unfold zcard. rewrite L2, Z2.
  unfold expire. rewrite L2.
  assert (X : exists_key key s2 = true).
  { unfold exists_key, s2. cbn. rewrite lookup_insert_eq.
    rewrite bool_decide_eq_true_2 by eauto. reflexivity. }
  rewrite X. reflexivity.
Qed.

Lemma record_store now key s :
  record now key s =
    mkStore (<[key := window_after now key s]> (zsets (touch now key s)))
            (counters (touch now key s))
            (<[key := now + 60000]> (deadlines (touch now key s))).
Proof.
  unfold record. destruct (slidingPipeline_run now key s) as (a & r & E).
  now rewrite E.
Qed.

Lemma record_zset now key s : zset_of key (record now key s) = window_after now key s.
Proof. rewrite record_store. unfold zset_of. cbn. now rewrite lookup_insert_eq. Qed.

(** Until the refreshed deadline passes, a later command finds the set as the
    request left it. *)
Lemma record_live now now' key s :
  now' <= now + 60000 →
  zset_of key (touch now' key (record now key s)) = window_after now key s.
Proof.
  intros H. rewrite touch_fixed; [apply record_zset|].
  rewrite record_store. unfold expired. cbn. rewrite lookup_insert_eq.
  apply Z.ltb_ge. exact H.
Qed.

(** ** The sliding-window limiter as a middleware *)

Section SlidingFacts.
Context (env : Env).

Lemma sliding_up now ip w :
  redisUp env (trips w) = true →
  slidingRateLimiter env now ip w =
    let c := slidingCount now (slidingKey ip) (store w) in
    let w1 := recorded now ip w in
    let h := slidingHeaders c (headers (res w)) in
    if Sliding.MAX_REQUESTS <? c
    then (Ok Ended, with_res (mkRes 429 h (Some tooManySliding)) w1)
    else (Ok NextCalled, with_res (mkRes (status (res w)) h (body (res w))) w1).
Proof.
  intros Hup.
  unfold slidingRateLimiter, try_catch, bind, pipeline_exec, redis_call.
  rewrite Hup. unfold recorded, record.
  destruct (slidingPipeline_run now (slidingKey ip) (store w)) as (a & r & E).
  rewrite E. cbn -[slidingCount window_after Z.ltb].
  destruct (Sliding.MAX_REQUESTS <? _); reflexivity.
Qed.

Lemma sliding_down now ip w :
  redisUp env (trips w) = false →
  slidingRateLimiter env now ip w =
    (Ok NextCalled, degraded "Sliding limiter degraded, allowing request" w).
Proof.
  intros Hdown.
  unfold slidingRateLimiter, try_catch, bind, pipeline_exec, redis_call.
  rewrite Hdown. reflexivity.
Qed.

End SlidingFacts.

(** ** Requests in the same millisecond *)

Lemma window_after_again now key s :
  window_after now key (record now key s) = window_after now key s.
Proof.
  unfold window_after at 1. rewrite record_live by lia.
  rewrite insert_id by apply window_after_fresh.
  unfold window_after. apply map_filter_id.
  intros m sc H. apply map_lookup_filter_Some in H. tauto.
Qed.

Lemma record_again now key s : record now key (record now key s) = record now key s.
Proof.
  rewrite (record_store now key (record now key s)).
  rewrite window_after_again.
  rewrite touch_fixed.
  - rewrite record_store. cbn. now rewrite !insert_insert_eq.
  - rewrite record_store. unfold expired. cbn. rewrite lookup_insert_eq.
    apply Z.ltb_ge. lia.
Qed.

Section SameInstant.
Context (env : Env).

(** C3, what the code does.  The member recorded for a request is the decimal
    rendering of [now] and nothing else, so a second request for the same
    client in the same millisecond overwrites the entry of the first: the
    store is exactly as the first request left it, the count reported to the
    second request equals the count reported to the first, and both get the
    same decision. *)
Theorem same_instant_overwrites now ip w :
  redisUp env (trips w) = true →
  redisUp env (S (trips w)) = true →
  let first := slidingRateLimiter env now ip w in
  let second := slidingRateLimiter env now ip first.2 in
  store second.2 = store first.2 ∧
  slidingCount now (slidingKey ip) (store first.2)
    = slidingCount now (slidingKey ip) (store w) ∧
  second.1 = first.1.
Proof.
  intros H1 H2. cbn zeta.
  assert (Hs : store (slidingRateLimiter env now ip w).2
               = record now (slidingKey ip) (store w)
               ∧ trips (slidingRateLimiter env now ip w).2 = S (trips w)).
  { rewrite sliding_up by exact H1. cbn zeta.
    destruct (Sliding.MAX_REQUESTS <? _); split; reflexivity. }
  destruct Hs as [Hs Ht].
  set (w1 := (slidingRateLimiter env now ip w).2) in *.
  assert (Hc : slidingCount now (slidingKey ip) (store w1)
               = slidingCount now (slidingKey ip) (store w)).
  { unfold slidingCount. now rewrite Hs, window_after_again. }
  rewrite (sliding_up env now ip w1) by now rewrite Ht.
  cbn zeta. rewrite Hc.
  rewrite (sliding_up env now ip w) by exact H1. cbn zeta.
  destruct (Sliding.MAX_REQUESTS <? _); cbn [fst snd];
    (split; [|split; reflexivity]);
    unfold recorded; cbn; rewrite Hs; apply record_again.
Qed.

End SameInstant.

Lemma same_instant_overwrites_witness :
  let first := slidingRateLimiter storeUp 1000 "1.2.3.4" initialWorld in
  let second := slidingRateLimiter storeUp 1000 "1.2.3.4" first.2 in
  store second.2 = store first.2 ∧
  slidingCount 1000 (slidingKey "1.2.3.4") (store first.2)
    = slidingCount 1000 (slidingKey "1.2.3.4") (store initialWorld) ∧
  second.1 = first.1.
Proof.
  apply (same_instant_overwrites storeUp 1000 "1.2.3.4" initialWorld);
    reflexivity.
Defined.

(** Two requests of one client at time 1000, on an empty store: one entry is
    left and the second request is told that four requests remain. *)
Example two_requests_one_entry :
  let first := slidingRateLimiter storeUp 1000 "1.2.3.4" initialWorld in
  let second := slidingRateLimiter storeUp 1000 "1.2.3.4" first.2 in
  size (zset_of "rate:sw:1.2.3.4" (store second.2)) = 1%nat ∧
  headers (res second.2) !! "X-RateLimit-Remaining" = Some (Num 4).
Proof. vm_compute. split; reflexivity. Qed.

(** C6, at the failing input.  Six requests (limit + 1) of one client in the
    same millisecond: none is rejected. *)
Theorem six_same_instant_requests_all_admitted :
  map statusOf
      (serve storeUp (replicate 6 (healthAt "1.2.3.4" 1000)) initialWorld).1
    = replicate 6 (Some 200).
Proof. vm_compute. reflexivity. Qed.

(** Six requests at six successive milliseconds: the sixth is rejected. *)
Example six_spread_requests :
  map statusOf
      (serve storeUp (map (healthAt "1.2.3.4") [1; 2; 3; 4; 5; 6]) initialWorld).1
    = [Some 200; Some 200; Some 200; Some 200; Some 200; Some 429].
Proof. vm_compute. reflexivity. Qed.

(** ** The request pipeline: limiter first, then the route *)

Section PipelineFacts.
Context (env : Env).

Lemma handle_rejected req w :
  redisUp env (trips w) = true →
  Sliding.MAX_REQUESTS < slidingCount (at_ms req) (slidingKey (ip req)) (store w) →
  handle env req w =
    let c := slidingCount (at_ms req) (slidingKey (ip req)) (store w) in
    let r := mkRes 429 (slidingHeaders c ∅) (Some tooManySliding) in
    (Ok r, with_res r (recorded (at_ms req) (ip req) w)).
Proof.
  intros Hup Hc. unfold handle, bind, modify.
  rewrite sliding_up by exact Hup. cbn zeta.
  apply Z.ltb_lt in Hc. cbn [store with_res]. rewrite Hc. reflexivity.
Qed.

Lemma handle_admitted req w :
  redisUp env (trips w) = true →
  slidingCount (at_ms req) (slidingKey (ip req)) (store w) <= Sliding.MAX_REQUESTS →
  handle env req w =
    let c := slidingCount (at_ms req) (slidingKey (ip req)) (store w) in
    (let! _ := route env req in get res)
      (with_res (mkRes 200 (slidingHeaders c ∅) None)
                (recorded (at_ms req) (ip req) w)).
Proof.
  intros Hup Hc. unfold handle, modify.
  unfold bind at 1. unfold bind at 1.
  rewrite sliding_up by exact Hup. cbn zeta.
  apply Z.ltb_ge in Hc. cbn [store with_res]. rewrite Hc. reflexivity.
Qed.

Lemma handle_degraded req w :
  redisUp env (trips w) = false →
  handle env req w =
    (let! _ := route env req in get res)
      (degraded degradedLine (with_res freshRes w)).
Proof.
  intros Hdown. unfold handle, modify.
  unfold bind at 1. unfold bind at 1.
  rewrite sliding_down by exact Hdown. reflexivity.
Qed.

End PipelineFacts.

Section PipelineClaims.
Context (env : Env).

(** C2, as the code has it.  The sliding-window limiter is mounted before
    every route, [/health] included.  A GET /health whose count exceeds
    MAX_REQUESTS is answered 429 by the limiter; otherwise, and whenever the
    store cannot be reached, it is answered 200 with the liveness body.  In no
    case does it read or change the circuit breaker or issue a downstream
    call. *)
Theorem health_behind_limiter w client now :
  let r := handle env (healthAt client now) w in
  let c := slidingCount now (slidingKey client) (store w) in
  breaker r.2 = breaker w ∧
  issued r.2 = issued w ∧
  r.1 = Ok (if redisUp env (trips w)
            then if Sliding.MAX_REQUESTS <? c
                 then mkRes 429 (slidingHeaders c ∅) (Some tooManySliding)
                 else mkRes 200 (slidingHeaders c ∅) (Some healthBody)
            else mkRes 200 ∅ (Some healthBody)).
Proof.
  cbn zeta.
  destruct (redisUp env (trips w)) eqn:Hup.
  - destruct (Sliding.MAX_REQUESTS <? _) eqn:Hc.
    + rewrite handle_rejected by (try apply Z.ltb_lt; assumption).
      repeat split.
    + rewrite handle_admitted by (try apply Z.ltb_ge; assumption).
      repeat split.
  - rewrite handle_degraded by exact Hup. repeat split.
Qed.

(** C7. When the round trip to the counter store fails, the sliding-window
    limiter raises nothing and answers nothing: it logs one line and calls
    [next()], leaving the response untouched.  The request then runs its route
    exactly as it would after an admission: GET /health is answered 200 with
    the liveness body, and GET /call-slow with a closed breaker and a
    downstream that answers is answered 200 with the downstream payload.  The
    fixed-window limiter does the same, whether the failing call is its INCR or
    the EXPIRE that follows a count of 1. *)
Theorem limiters_fail_open w req :
  (redisUp env (trips w) = false →
     slidingRateLimiter env (at_ms req) (ip req) w
       = (Ok NextCalled, degraded degradedLine w) ∧
     handle env req w
       = (let! _ := route env req in get res)
           (degraded degradedLine (with_res freshRes w)) ∧
     (path req = Health →
        (handle env req w).1 = Ok (mkRes 200 ∅ (Some healthBody))) ∧
     (path req = CallSlow → circuitOpen (breaker w) = false →
        ∀ data, upstream env (issued w) = Resolved data →
        (handle env req w).1 = Ok (mkRes 200 ∅ (Some data)))) ∧
  (redisUp env (trips w) = false →
     rateLimiter env (at_ms req) (ip req) w
       = (Ok NextCalled,
          degraded "Rate limiter degraded, allowing request" w)) ∧
  (redisUp env (trips w) = true →
     (incr (at_ms req) (fixedKey (ip req)) (store w)).1 = 1 →
     redisUp env (S (trips w)) = false →
     let r := rateLimiter env (at_ms req) (ip req) w in
     r.1 = Ok NextCalled ∧
     res r.2 = res w ∧
     console r.2 = "Rate limiter degraded, allowing request" :: console w).
Proof.
  split; [|split].
  - intros Hdown. repeat split.
    + now apply sliding_down.
    + now apply handle_degraded.
    + intros Hp. rewrite handle_degraded by assumption.
      unfold route, bind. rewrite Hp. reflexivity.
    + intros Hp Hc data Hd. rewrite handle_degraded by assumption.
      unfold route. rewrite Hp. unfold bind at 1.
      rewrite callSlow_closed by exact Hc.
      rewrite (guardedCall_success env _ _ data) by exact Hd. reflexivity.
  - intros Hdown. unfold rateLimiter, try_catch, bind, redis_call.
    now rewrite Hdown.
  - intros Hup Hone Hdown. cbn zeta.
    unfold rateLimiter, try_catch, bind, redis_call. rewrite Hup.
    destruct (incr _ _ _) as [c s]. cbn [fst] in Hone. subst c.
    cbn. rewrite Hdown. repeat split.
Qed.

End PipelineClaims.

Lemma limiters_fail_open_witness :
  (handle storeDown (healthAt "1.2.3.4" 1000) initialWorld).1
    = Ok (mkRes 200 ∅ (Some healthBody)) ∧
  (handle storeDown (mkRequest "1.2.3.4" CallSlow 1000) initialWorld).1
    = Ok (mkRes 200 ∅ (Some slowPayload)) ∧
  rateLimiter storeDown 1000 "1.2.3.4" initialWorld
    = (Ok NextCalled,
       degraded "Rate limiter degraded, allowing request" initialWorld) ∧
  (rateLimiter storeDownAfterOne 1000 "1.2.3.4" initialWorld).1 = Ok NextCalled.
Proof.
  split; [|split; [|split]].
  - destruct (limiters_fail_open storeDown initialWorld
                (healthAt "1.2.3.4" 1000)) as (S1 & _ & _).
    destruct (S1 eq_refl) as (_ & _ & Hhealth & _).
    apply Hhealth. reflexivity.
  - destruct (limiters_fail_open storeDown initialWorld
                (mkRequest "1.2.3.4" CallSlow 1000)) as (S1 & _ & _).
    destruct (S1 eq_refl) as (_ & _ & _ & Hslow).
    apply Hslow; reflexivity.
  - destruct (limiters_fail_open storeDown initialWorld
                (healthAt "1.2.3.4" 1000)) as (_ & F1 & _).
    apply F1. reflexivity.
  - destruct (limiters_fail_open storeDownAfterOne initialWorld
                (healthAt "1.2.3.4" 1000)) as (_ & _ & F2).
    apply F2; reflexivity.
Defined.

(** C2 fails on the code: the sixth GET /health of one client within a minute
    is answered 429. *)
Lemma health_is_rate_limited : ¬ health_bypasses_limiter storeUp.
Proof.
  intros H.
  set (w5 := (serve storeUp (map (healthAt "1.2.3.4") [1; 2; 3; 4; 5])
                initialWorld).2).
  destruct (H w5 "1.2.3.4" 6) as [Hstatus _].
  vm_compute in Hstatus. discriminate.
Qed.

(** ** Sequences of requests of one client *)

Lemma sliding_up_flow env now client w :
  redisUp env (trips w) = true →
  (slidingRateLimiter env now client w).1
    = flowOf (Sliding.MAX_REQUESTS <? slidingCount now (slidingKey client) (store w)) ∧
  store (slidingRateLimiter env now client w).2
    = record now (slidingKey client) (store w).
Proof.
  intros Hup. rewrite sliding_up by exact Hup. cbn zeta.
  destruct (Sliding.MAX_REQUESTS <? _); split; reflexivity.
Qed.

Lemma evaluate_decisions env client ts w :
  (∀ k, redisUp env k = true) →
  (evaluate env client ts w).1
    = flowOf <$> decisions (slidingKey client) ts (store w).
Proof.
  intros Hup. revert w. induction ts as [|t ts IH]; intros w; [reflexivity|].
  cbn [evaluate decisions fmap list_fmap].
  destruct (sliding_up_flow env t client w (Hup _)) as [Hf Hs].
  destruct (slidingRateLimiter env t client w) as [o w1]. cbn [fst snd] in *.
  specialize (IH w1). destruct (evaluate env client ts w1) as [os w2].
  cbn [fst] in *. now rewrite Hf, IH, Hs.
Qed.


(** An entry that is live and inside the window of a request survives it,
    with its score or, if it is the request's own member, with [now]. *)
Lemma window_after_keeps now key s m sc :
  zset_of key (touch now key s) !! m = Some sc →
  now - Sliding.WINDOW_MS < sc →
  window_after now key s !! m = Some (if decide (m = pretty now) then now else sc).
Proof.
  intros Hm Hin. rewrite window_after_insert.
  destruct (decide (m = pretty now)) as [->|Hne].
  - apply lookup_insert_eq.
  - rewrite lookup_insert_ne by congruence.
    apply map_lookup_filter_Some. split; [exact Hm|].
    unfold in_range. cbn. lia.
Qed.

(** *** After a rejection *)

Section AfterRejection.
Context (key : string) (S0 : gmap string Z) (t0 : Z) (further : list Z).
Hypothesis later : ∀ t, t ∈ further → t0 <= t.
Hypothesis inside : ∀ t, t ∈ further → t - Sliding.WINDOW_MS < t0.




End AfterRejection.

(** *** Requests that keep coming *)

Lemma remembers_nothing key last s : remembers key [] last s.
Proof. repeat split; intros; exfalso; eapply not_elem_of_nil; eauto. Qed.

Lemma remembers_live key seen last s t u :
  remembers key seen last s → last <= t →
  u ∈ seen → t - Sliding.WINDOW_MS < u →
  zset_of key (touch t key s) !! pretty u = Some u.
Proof.
  intros (Hle & Hmem & Hdue) Hlt Hu Hin.
  assert (Hne : expired t key s = false).
  { unfold expired. destruct (deadlines s !! key) as [d|] eqn:Hd; [|reflexivity].
    apply Z.ltb_ge. specialize (Hdue d eq_refl u Hu).
    unfold Sliding.WINDOW_MS in Hin. lia. }
  rewrite touch_fixed by exact Hne. apply Hmem; [exact Hu|lia].
Qed.

Lemma remembers_step key seen last s t :
  remembers key seen last s → last <= t →
  remembers key (t :: seen) t (record t key s).
Proof.
  intros Hr Hlt. pose proof Hr as (Hle & Hmem & Hdue). repeat split.
  - intros u Hu. apply elem_of_cons in Hu as [->|Hu]; [lia|].
    specialize (Hle u Hu). lia.
  - intros u Hu Hin. rewrite record_zset.
    apply elem_of_cons in Hu as [->|Hu]; [apply window_after_fresh|].
    rewrite (window_after_keeps t key s (pretty u) u);
      [|now apply (remembers_live key seen last)|exact Hin].
    destruct (decide (pretty u = pretty t)) as [E|_]; [|reflexivity].
    apply (inj pretty) in E. now subst.
  - intros d Hd u Hu. rewrite record_store in Hd. cbn in Hd.
    rewrite lookup_insert_eq in Hd. injection Hd as <-.
    apply elem_of_cons in Hu as [->|Hu]; [lia|].
    specialize (Hle u Hu). lia.
Qed.

Lemma size_ge_members (B : gmap string Z) (us : list Z) :
  NoDup us → (∀ u, u ∈ us → is_Some (B !! pretty u)) →
  (length us ≤ size B)%nat.
Proof.
  intros Hnd Hin.
  rewrite <- (length_fmap pretty us).
  rewrite <- (size_list_to_set (C := gset string) (pretty <$> us))
    by now apply (NoDup_fmap_2 pretty).
  rewrite <- (size_dom (D := gset string) B).
  apply subseteq_size. intros m Hm.
  apply elem_of_list_to_set, list_elem_of_fmap in Hm as (u & -> & Hu).
  apply elem_of_dom, Hin, Hu.
Qed.


(** Five earlier requests inside the window of a request at [t] make its
    count at least six. *)
Lemma remembers_count key seen last s t olds :
  remembers key seen last s → last <= t →
  NoDup olds → t ∉ olds →
  (∀ u, u ∈ olds → u ∈ seen ∧ t - Sliding.WINDOW_MS < u) →
  (length olds + 1 ≤ size (window_after t key s))%nat.
Proof.
  intros Hr Hlt Hnd Hnot Hold.
  destruct (remembers_step key seen last s t Hr Hlt) as (_ & Hmem & _).
  rewrite record_zset in Hmem.
  replace (length olds + 1)%nat with (length (t :: olds)) by (cbn; lia).
  apply size_ge_members; [now constructor|].
  intros u Hu. exists u. apply Hmem.
  - apply elem_of_cons in Hu as [->|Hu]; [left|right; now apply Hold].
  - apply elem_of_cons in Hu as [->|Hu];
      [unfold Sliding.WINDOW_MS; lia | now apply Hold].
Qed.


Lemma sorted_hd_le (l : list Z) (d : Z) :
  StronglySorted Z.lt l → ∀ x, x ∈ l → hd d l <= x.
Proof.
  intros Hs x Hx. destruct Hs as [|h l' _ Hall].
  - now apply not_elem_of_nil in Hx.
  - cbn. rewrite Forall_forall in Hall.
    apply elem_of_cons in Hx as [->|Hx]; [lia|]. specialize (Hall x Hx). lia.
Qed.


Section SlidingClaims.
Context (env : Env).


End SlidingClaims.



(** ** The fixed-window limiter *)

Lemma fixed_up_flow env now client w :
  (∀ k, redisUp env k = true) →
  (rateLimiter env now client w).1
    = flowOf (Fixed.MAX_REQUESTS <? fixedCount now (fixedKey client) (store w)) ∧
  store (rateLimiter env now client w).2
    = fixedRecord now (fixedKey client) (store w).
Proof.
  intros Hup. unfold rateLimiter, try_catch, bind, redis_call.
  unfold fixedRecord, fixedCount, fixedKey. rewrite Hup.
  destruct (incr now ("rate:" +:+ client) (store w)) as [c s1]. cbn [fst snd].
  destruct (c =? 1); cbn -[Z.ltb expire].
  - rewrite Hup.
    destruct (expire now _ Fixed.WINDOW_SECONDS s1) as [r s2].
    cbn -[Z.ltb]. destruct (Fixed.MAX_REQUESTS <? c); split; reflexivity.
  - destruct (Fixed.MAX_REQUESTS <? c); split; reflexivity.
Qed.

Lemma evaluateFixed_decisions env client ts w :
  (∀ k, redisUp env k = true) →
  (evaluateFixed env client ts w).1
    = flowOf <$> fixedDecisions (fixedKey client) ts (store w).
Proof.
  intros Hup. revert w. induction ts as [|t ts IH]; intros w; [reflexivity|].
  cbn [evaluateFixed fixedDecisions fmap list_fmap].
  destruct (fixed_up_flow env t client w Hup) as [Hf Hs].
  destruct (rateLimiter env t client w) as [o w1]. cbn [fst snd] in *.
  specialize (IH w1). destruct (evaluateFixed env client ts w1) as [os w2].
  cbn [fst] in *. now rewrite Hf, IH, Hs.
Qed.

(** The first request on a key that does not exist opens a window of
    WINDOW_SECONDS. *)
Lemma fixed_first now key s :
  counters s !! key = None → deadlines s !! key = None →
  fixedCount now key s = 1 ∧
  counters (fixedRecord now key s) !! key = Some 1 ∧
  deadlines (fixedRecord now key s) !! key = Some (now + 60000).
Proof.
  intros Hc Hd.
  assert (Ht : touch now key s = s).
  { apply touch_fixed. unfold expired. now rewrite Hd. }
  assert (H1 : fixedCount now key s = 1).
  { unfold fixedCount, incr. rewrite Ht. cbn. now rewrite Hc. }
  split; [exact H1|].
  unfold fixedRecord. rewrite H1. cbn [Z.eqb Pos.eqb].
  unfold incr. rewrite Ht, Hc. cbn [default fst snd].
  unfold expire.
  set (s1 := mkStore _ _ _).
  assert (Ht1 : touch now key s1 = s1).
  { apply touch_fixed. unfold expired, s1. cbn. now rewrite Hd. }
  rewrite Ht1.
  assert (X : exists_key key s1 = true).
  { unfold exists_key, s1. cbn. rewrite lookup_insert_eq.
    rewrite (bool_decide_eq_true_2 (is_Some (Some 1))) by eauto.
    apply orb_true_r. }
  rewrite X. cbn. rewrite !lookup_insert_eq. split; reflexivity.
Qed.

(** A later request before the window closes only increments. *)
Lemma fixed_next now key s n d :
  counters s !! key = Some n → 1 <= n →
  deadlines s !! key = Some d → now <= d →
  fixedCount now key s = n + 1 ∧
  counters (fixedRecord now key s) !! key = Some (n + 1) ∧
  deadlines (fixedRecord now key s) !! key = Some d.
Proof.
  intros Hc Hn Hd Hle.
  assert (Ht : touch now key s = s).
  { apply touch_fixed. unfold expired. rewrite Hd. apply Z.ltb_ge. exact Hle. }
  assert (H1 : fixedCount now key s = n + 1).
  { unfold fixedCount, incr. rewrite Ht. cbn. now rewrite Hc. }
  split; [exact H1|].
  unfold fixedRecord. rewrite H1.
  destruct (n + 1 =? 1) eqn:E; [apply Z.eqb_eq in E; lia|].
  unfold incr. rewrite Ht, Hc. cbn. rewrite lookup_insert_eq. now split.
Qed.

Lemma fixed_window_counts key ts :
  ∀ s n d,
    counters s !! key = Some n → 1 <= n →
    deadlines s !! key = Some d → Forall (λ t, t <= d) ts →
    fixedDecisions key ts s
      = (λ i, Fixed.MAX_REQUESTS <? n + 1 + Z.of_nat i) <$> seq 0 (length ts).
Proof.
  induction ts as [|t ts IH]; intros s n d Hc Hn Hd Hall; [reflexivity|].
  apply Forall_cons in Hall as [Ht Hall].
  destruct (fixed_next t key s n d Hc Hn Hd Ht) as (H1 & Hc' & Hd').
  cbn [fixedDecisions length seq fmap list_fmap]. rewrite H1.
  rewrite (IH _ (n + 1) d Hc' ltac:(lia) Hd' Hall).
  f_equal; [f_equal; lia|].
  rewrite <- seq_shift, <- list_fmap_compose.
  apply list_fmap_ext. intros _ i _. cbn. f_equal. lia.
Qed.

(** Limit + 1 requests of a client whose key does not exist yet, the later
    ones before the window of the first closes: the fixed-window limiter
    admits the first five and rejects the sixth. *)
Lemma fixed_window_sixth_rejected env client w t0 t1 t2 t3 t4 t5 :
  (∀ k, redisUp env k = true) →
  counters (store w) !! fixedKey client = None →
  deadlines (store w) !! fixedKey client = None →
  Forall (λ t, t <= t0 + 60000) [t1; t2; t3; t4; t5] →
  (evaluateFixed env client [t0; t1; t2; t3; t4; t5] w).1
    = [Ok NextCalled; Ok NextCalled; Ok NextCalled; Ok NextCalled;
       Ok NextCalled; Ok Ended].
Proof.
  intros Hup Hc Hd Hall.
  rewrite evaluateFixed_decisions by exact Hup.
  destruct (fixed_first t0 (fixedKey client) (store w) Hc Hd) as (H1 & Hc' & Hd').
  change (fixedDecisions (fixedKey client) [t0; t1; t2; t3; t4; t5] (store w))
    with ((Fixed.MAX_REQUESTS <? fixedCount t0 (fixedKey client) (store w))
          :: fixedDecisions (fixedKey client) [t1; t2; t3; t4; t5]
               (fixedRecord t0 (fixedKey client) (store w))).
  rewrite H1.
  rewrite (fixed_window_counts _ _ _ 1 _ Hc' ltac:(lia) Hd' Hall).
  reflexivity.
Qed.

(** ** The sliding window at distinct milliseconds *)

Lemma window_after_size_le now key s :
  (size (window_after now key s) ≤ S (size (zset_of key s)))%nat.
Proof.
  unfold window_after.
  etransitivity; [apply map_subseteq_size, map_filter_subseteq|].
  rewrite map_size_insert.
  assert (Hlive : (size (zset_of key (touch now key s)) ≤ size (zset_of key s))%nat).
  { unfold touch. destruct (expired now key s); [|reflexivity].
    unfold zset_of, del. cbn. rewrite lookup_delete_eq. cbn.
    rewrite map_size_empty. lia. }
  destruct (zset_of key (touch now key s) !! pretty now); cbn [id]; lia.
Qed.

Lemma sliding_exact key ts :
  ∀ seen last s,
    remembers key seen last s →
    (size (zset_of key s) ≤ length seen)%nat →
    NoDup seen →
    StronglySorted Z.lt ts →
    (∀ x, x ∈ ts → last <= x) →
    (∀ u x, u ∈ seen → x ∈ ts → u < x) →
    (∀ u x, u ∈ seen ++ ts → x ∈ ts → x - Sliding.WINDOW_MS < u) →
    decisions key ts s
      = (λ i, Sliding.MAX_REQUESTS <? Z.of_nat (length seen) + 1 + Z.of_nat i)
          <$> seq 0 (length ts).
Proof.
  induction ts as [|t ts IH];
    intros seen last s Hr Hsize Hnd Hsort Hlast Hseen Hin; [reflexivity|].
  apply StronglySorted_cons in Hsort as [Ht Hsort].
  rewrite Forall_forall in Ht.
  assert (Hnot : t ∉ seen).
  { intros Hx. specialize (Hseen t t Hx (list_elem_of_here _ _)). lia. }
  assert (Hcount : size (window_after t key s) = S (length seen)).
  { apply Nat.le_antisymm.
    - pose proof (window_after_size_le t key s). lia.
    - replace (S (length seen)) with (length seen + 1)%nat by lia.
      apply (remembers_count key seen last s t seen Hr); try assumption.
      + apply Hlast. left.
      + intros u Hu. split; [exact Hu|]. apply Hin; [|left].
        apply elem_of_app. now left. }
  cbn [decisions length seq fmap list_fmap].
  unfold slidingCount at 1. rewrite Hcount.
  rewrite (IH (t :: seen) t (record t key s)).
  - f_equal; [f_equal; lia|].
    rewrite <- seq_shift, <- list_fmap_compose.
    apply list_fmap_ext. intros _ i _. cbn [compose length]. f_equal. lia.
  - apply (remembers_step key seen last); [exact Hr|]. apply Hlast. left.
  - rewrite record_zset, Hcount. reflexivity.
  - now constructor.
  - exact Hsort.
  - intros x Hx. specialize (Ht x Hx). lia.
  - intros u x Hu Hx. apply elem_of_cons in Hu as [->|Hu]; [now apply Ht|].
    apply (Hseen u x Hu). now right.
  - intros u x Hu Hx. apply (Hin u x); [|now right].
    apply elem_of_app. apply elem_of_cons in Hu as [->|Hu].
    + right. left.
    + apply elem_of_app in Hu as [Hu|Hu]; [now left|right; now right].
Qed.

(** Limit + 1 requests of a client whose key does not exist yet, at
    increasing milliseconds inside one window: the sliding-window limiter
    admits the first five and rejects the sixth. *)
Lemma sliding_window_sixth_rejected env client w t0 t1 t2 t3 t4 t5 :
  (∀ k, redisUp env k = true) →
  zsets (store w) !! slidingKey client = None →
  t0 < t1 < t2 ∧ t2 < t3 < t4 ∧ t4 < t5 < t0 + Sliding.WINDOW_MS →
  (evaluate env client [t0; t1; t2; t3; t4; t5] w).1
    = [Ok NextCalled; Ok NextCalled; Ok NextCalled; Ok NextCalled;
       Ok NextCalled; Ok Ended].
Proof.
  intros Hup Hnone Hord.
  rewrite evaluate_decisions by exact Hup.
  rewrite (sliding_exact (slidingKey client) _ [] t0 (store w)).
  - reflexivity.
  - apply remembers_nothing.
  - unfold zset_of. rewrite Hnone. cbn. rewrite map_size_empty. lia.
  - constructor.
  - repeat (constructor; [repeat constructor; lia|]). constructor.
  - intros x Hx. repeat (apply elem_of_cons in Hx as [->|Hx]; [lia|]).
    now apply not_elem_of_nil in Hx.
  - intros u x Hu. now apply not_elem_of_nil in Hu.
  - intros u x Hu Hx. cbn [app] in Hu. unfold Sliding.WINDOW_MS in *.
    repeat (apply elem_of_cons in Hu as [->|Hu];
            [repeat (apply elem_of_cons in Hx as [->|Hx]; [lia|]);
             now apply not_elem_of_nil in Hx|]).
    now apply not_elem_of_nil in Hu.
Qed.

(** * Further properties of the code *)

(** ** The sliding window, exactly *)

Lemma live_lookup now key s m sc :
  zset_of key (touch now key s) !! m = Some sc → zset_of key s !! m = Some sc.
Proof.
  unfold touch. destruct (expired now key s); [|auto].
  unfold zset_of, del. cbn. rewrite lookup_delete_eq. cbn.
  now rewrite lookup_empty.
Qed.

Lemma mirrors_remembers key seen last s :
  mirrors key seen last s → remembers key seen last s.
Proof.
  intros (Hb & Hm & Hd). repeat split.
  - intros u Hu. now apply Hb.
  - intros u Hu Hin. apply Hm. eauto.
  - exact Hd.
Qed.

Lemma mirrors_nothing key last s :
  zsets s !! key = None → mirrors key [] last s.
Proof.
  intros Hnone. repeat split.
  - now apply not_elem_of_nil in H.
  - now apply not_elem_of_nil in H.
  - unfold zset_of. rewrite Hnone. cbn. now rewrite lookup_empty.
  - intros (u & Hu & _). now apply not_elem_of_nil in Hu.
  - intros d _ u Hu. now apply not_elem_of_nil in Hu.
Qed.

Lemma mirrors_step key seen last s t :
  mirrors key seen last s → last <= t → 0 <= t →
  mirrors key (t :: seen) t (record t key s).
Proof.
  intros Hm Hlt Hpos. pose proof (mirrors_remembers _ _ _ _ Hm) as Hr.
  destruct (remembers_step key seen last s t Hr Hlt) as (_ & Hmem & Hdue).
  destruct Hm as (Hb & Hex & _).
  split; [|split].
  - intros u Hu. apply elem_of_cons in Hu as [->|Hu]; [lia|].
    specialize (Hb u Hu). lia.
  - intros m sc. split.
    + rewrite record_zset, window_after_insert.
      destruct (decide (m = pretty t)) as [->|Hne].
      * rewrite lookup_insert_eq. intros [= <-].
        exists t. repeat split; [left|unfold Sliding.WINDOW_MS; lia].
      * rewrite lookup_insert_ne by congruence.
        intros H. apply map_lookup_filter_Some in H as [Hl Hk].
        apply live_lookup, Hex in Hl as (u & Hu & _ & -> & ->).
        exists u. repeat split; [now right|].
        specialize (Hb u Hu). unfold in_range in Hk. cbn in Hk. lia.
    + intros (u & Hu & Hin & -> & ->). now apply Hmem.
  - exact Hdue.
Qed.

Lemma size_of_members (B : gmap string Z) (us : list Z) :
  NoDup us →
  (∀ m sc, B !! m = Some sc ↔ ∃ u, u ∈ us ∧ m = pretty u ∧ sc = u) →
  size B = length us.
Proof.
  intros Hnd Hchar. apply Nat.le_antisymm.
  - rewrite <- (length_fmap pretty us).
    rewrite <- (size_list_to_set (C := gset string) (pretty <$> us))
      by now apply (NoDup_fmap_2 pretty).
    rewrite <- (size_dom (D := gset string) B).
    apply subseteq_size. intros m Hm.
    apply elem_of_dom in Hm as [sc Hsc].
    apply Hchar in Hsc as (u & Hu & -> & _).
    apply elem_of_list_to_set, list_elem_of_fmap. eauto.
  - apply size_ge_members; [exact Hnd|].
    intros u Hu. exists u. apply Hchar. eauto.
Qed.

Lemma mirrors_count key seen last s t :
  mirrors key seen last s → last <= t → 0 <= t → NoDup (t :: seen) →
  slidingCount t key s
    = Z.of_nat (length (filter (λ u, t - Sliding.WINDOW_MS < u) (t :: seen))).
Proof.
  intros Hm Hlt Hpos Hnd. unfold slidingCount. f_equal.
  destruct (mirrors_step key seen last s t Hm Hlt Hpos) as (_ & Hex & _).
  rewrite record_zset in Hex.
  apply size_of_members; [now apply NoDup_filter|].
  intros m sc. rewrite Hex. split.
  - intros (u & Hu & Hin & -> & ->). exists u. repeat split.
    apply list_elem_of_filter. now split.
  - intros (u & Hu & -> & ->). apply list_elem_of_filter in Hu as [Hin Hu].
    exists u. now repeat split.
Qed.

Lemma counts_exact key ts :
  ∀ seen last s,
    mirrors key seen last s →
    NoDup seen →
    StronglySorted Z.lt ts →
    (∀ x, x ∈ ts → last <= x ∧ 0 <= x) →
    (∀ u x, u ∈ seen → x ∈ ts → u < x) →
    counts key ts s = windowCounts seen ts.
Proof.
  induction ts as [|t ts IH]; intros seen last s Hm Hnd Hsort Hlast Hseen;
    [reflexivity|].
  apply StronglySorted_cons in Hsort as [Ht Hsort].
  rewrite Forall_forall in Ht.
  destruct (Hlast t (list_elem_of_here _ _)) as [Hlt Hpos].
  assert (Hnd' : NoDup (t :: seen)).
  { constructor; [|exact Hnd]. intros Hx.
    specialize (Hseen t t Hx (list_elem_of_here _ _)). lia. }
  cbn [counts windowCounts].
  rewrite (mirrors_count key seen last s t Hm Hlt Hpos Hnd'). f_equal.
  apply (IH (t :: seen) t).
  - now apply (mirrors_step key seen last).
  - exact Hnd'.
  - exact Hsort.
  - intros x Hx. specialize (Ht x Hx).
    destruct (Hlast x (list_elem_of_further _ _ _ Hx)). lia.
  - intros u x Hu Hx. apply elem_of_cons in Hu as [->|Hu]; [now apply Ht|].
    apply (Hseen u x Hu). now right.
Qed.

Lemma decisions_counts key ts s :
  decisions key ts s = (λ c, Sliding.MAX_REQUESTS <? c) <$> counts key ts s.
Proof.
  revert s. induction ts as [|t ts IH]; intros s; [reflexivity|].
  cbn [decisions counts fmap list_fmap]. now rewrite IH.
Qed.

Lemma counts_fresh key ts s :
  zsets s !! key = None →
  StronglySorted Z.lt ts → Forall (λ t, 0 <= t) ts →
  counts key ts s = windowCounts [] ts.
Proof.
  intros Hnone Hsort Hpos. rewrite Forall_forall in Hpos.
  apply (counts_exact key ts [] (hd 0 ts) s).
  - now apply mirrors_nothing.
  - constructor.
  - exact Hsort.
  - intros x Hx. split; [now apply sorted_hd_le|now apply Hpos].
  - intros u x Hu. now apply not_elem_of_nil in Hu.
Qed.

(** X1. The sliding-window limiter on a client that has no key yet, with the
    store answering, for requests at increasing milliseconds: each request is
    rejected exactly when more than MAX_REQUESTS of the requests made so far,
    itself included, lie in its trailing window [(t - WINDOW_MS, t]], whether
    or not the earlier ones were admitted. *)
Theorem sliding_window_is_exact env client ts w :
  (∀ k, redisUp env k = true) →
  zsets (store w) !! slidingKey client = None →
  StronglySorted Z.lt ts →
  Forall (λ t, 0 <= t) ts →
  (evaluate env client ts w).1
    = (λ n, flowOf (Sliding.MAX_REQUESTS <? n)) <$> windowCounts [] ts.
Proof.
  intros Hup Hnone Hsort Hpos.
  rewrite evaluate_decisions by exact Hup.
  rewrite decisions_counts, (counts_fresh _ _ _ Hnone Hsort Hpos).
  rewrite <- list_fmap_compose. reflexivity.
Qed.

Lemma sliding_window_is_exact_witness :
  (evaluate storeUp "1.2.3.4" [1; 2; 3; 4; 5; 6; 60003; 60004; 60005; 60006]
     initialWorld).1
    = (λ n, flowOf (Sliding.MAX_REQUESTS <? n))
        <$> windowCounts [] [1; 2; 3; 4; 5; 6; 60003; 60004; 60005; 60006].
Proof.
  apply (sliding_window_is_exact storeUp "1.2.3.4").
  - reflexivity.
  - reflexivity.
  - repeat (constructor; [repeat constructor; lia|]). constructor.
  - repeat constructor; lia.
Defined.

(** ** Responses of GET /health behind the limiter *)

Lemma handle_health_up env client t w :
  redisUp env (trips w) = true →
  (handle env (healthAt client t) w).1
    = Ok (healthResponse (slidingCount t (slidingKey client) (store w))) ∧
  store (handle env (healthAt client t) w).2
    = record t (slidingKey client) (store w).
Proof.
  intros Hup. unfold healthResponse.
  destruct (Sliding.MAX_REQUESTS <? _) eqn:Hc.
  - rewrite handle_rejected by (try apply Z.ltb_lt; assumption). now split.
  - rewrite handle_admitted by (try apply Z.ltb_ge; assumption). now split.
Qed.

Lemma serve_health_counts env client ts w :
  (∀ k, redisUp env k = true) →
  (serve env (healthAt client <$> ts) w).1
    = (λ n, Ok (healthResponse n)) <$> counts (slidingKey client) ts (store w).
Proof.
  intros Hup. revert w. induction ts as [|t ts IH]; intros w; [reflexivity|].
  cbn [serve counts fmap list_fmap].
  destruct (handle_health_up env client t w (Hup _)) as [Hr Hs].
  destruct (handle env (healthAt client t) w) as [o w1]. cbn [fst snd] in *.
  specialize (IH w1). destruct (serve env (healthAt client <$> ts) w1) as [os w2].
  cbn [fst] in *. now rewrite Hr, IH, Hs.
Qed.

(** X2. GET /health end to end, for a client that has no key yet and requests at
    increasing milliseconds, the store answering: the response to each request
    is determined by the number n of the client's requests in the trailing
    window, itself included: 200 with the liveness body while n is at most
    MAX_REQUESTS, 429 with [retryAfterMs] = WINDOW_MS beyond, in both cases
    with X-RateLimit-Limit 5 and X-RateLimit-Remaining max(0, 5 - n). *)
Theorem health_responses_follow_window env client ts w :
  (∀ k, redisUp env k = true) →
  zsets (store w) !! slidingKey client = None →
  StronglySorted Z.lt ts →
  Forall (λ t, 0 <= t) ts →
  (serve env (healthAt client <$> ts) w).1
    = (λ n, Ok (healthResponse n)) <$> windowCounts [] ts.
Proof.
  intros Hup Hnone Hsort Hpos.
  rewrite serve_health_counts by exact Hup.
  now rewrite (counts_fresh _ _ _ Hnone Hsort Hpos).
Qed.

Lemma health_responses_follow_window_witness :
  (λ o, (statusOf o, remainingOf o))
    <$> (serve storeUp (healthAt "1.2.3.4" <$> [10; 20; 30; 40; 50; 60])
           initialWorld).1
  = [(Some 200, Some (Num 4)); (Some 200, Some (Num 3));
     (Some 200, Some (Num 2)); (Some 200, Some (Num 1));
     (Some 200, Some (Num 0)); (Some 429, Some (Num 0))].
Proof.
  rewrite (health_responses_follow_window storeUp "1.2.3.4"
             [10; 20; 30; 40; 50; 60] initialWorld).
  - vm_compute. reflexivity.
  - reflexivity.
  - reflexivity.
  - repeat (constructor; [repeat constructor; lia|]). constructor.
  - repeat constructor; lia.
Defined.

(** ** Headers, silence and independent clients *)

Lemma slidingCount_positive now key s : 1 <= slidingCount now key s.
Proof.
  unfold slidingCount.
  pose proof (map_size_ne_0_lookup_2 (window_after now key s) (pretty now)) as H.
  rewrite window_after_fresh in H. specialize (H ltac:(eauto)). lia.
Qed.

Lemma slidingHeaders_lookup c h :
  slidingHeaders c h !! "X-RateLimit-Limit" = Some (Num Sliding.MAX_REQUESTS) ∧
  slidingHeaders c h !! "X-RateLimit-Remaining"
    = Some (Num (Z.max 0 (Sliding.MAX_REQUESTS - c))).
Proof.
  unfold slidingHeaders. split.
  - rewrite lookup_insert_ne by discriminate. apply lookup_insert_eq.
  - apply lookup_insert_eq.
Qed.

(** X3. Whenever the store answers, the limiter announces X-RateLimit-Limit 5
    and an X-RateLimit-Remaining that is never negative and never the full
    limit (the request itself is counted).  A rejection always carries
    Remaining 0, status 429 and the retry body; an admission leaves status
    and body of the response alone. *)
Theorem sliding_headers_bounded env now client w :
  redisUp env (trips w) = true →
  let r := slidingRateLimiter env now client w in
  headers (res r.2) !! "X-RateLimit-Limit" = Some (Num Sliding.MAX_REQUESTS) ∧
  ∃ remaining,
    headers (res r.2) !! "X-RateLimit-Remaining" = Some (Num remaining) ∧
    0 <= remaining < Sliding.MAX_REQUESTS ∧
    (r.1 = Ok Ended →
       remaining = 0 ∧ status (res r.2) = 429 ∧
       body (res r.2) = Some tooManySliding) ∧
    (r.1 = Ok NextCalled →
       status (res r.2) = status (res w) ∧ body (res r.2) = body (res w)).
Proof.
  intros Hup. cbn zeta. rewrite sliding_up by exact Hup. cbn zeta.
  pose proof (slidingCount_positive now (slidingKey client) (store w)) as Hpos.
  set (c := slidingCount now (slidingKey client) (store w)) in *.
  destruct (slidingHeaders_lookup c (headers (res w))) as [Hlim Hrem].
  destruct (Sliding.MAX_REQUESTS <? c) eqn:Hc; cbn [fst snd res with_res headers].
  - apply Z.ltb_lt in Hc. split; [exact Hlim|].
    exists (Z.max 0 (Sliding.MAX_REQUESTS - c)). split; [exact Hrem|].
    unfold Sliding.MAX_REQUESTS in *. repeat split; try lia; discriminate.
  - apply Z.ltb_ge in Hc. split; [exact Hlim|].
    exists (Z.max 0 (Sliding.MAX_REQUESTS - c)). split; [exact Hrem|].
    unfold Sliding.MAX_REQUESTS in *. repeat split; try lia; discriminate.
Qed.

Lemma sliding_headers_bounded_witness :
  let r := slidingRateLimiter storeUp 6 "1.2.3.4" afterFive in
  headers (res r.2) !! "X-RateLimit-Limit" = Some (Num Sliding.MAX_REQUESTS) ∧
  ∃ remaining,
    headers (res r.2) !! "X-RateLimit-Remaining" = Some (Num remaining) ∧
    0 <= remaining < Sliding.MAX_REQUESTS ∧
    (r.1 = Ok Ended →
       remaining = 0 ∧ status (res r.2) = 429 ∧
       body (res r.2) = Some tooManySliding) ∧
    (r.1 = Ok NextCalled →
       status (res r.2) = status (res afterFive) ∧
       body (res r.2) = body (res afterFive)).
Proof.
  apply (sliding_headers_bounded storeUp 6 "1.2.3.4" afterFive). reflexivity.
Defined.

Lemma window_after_expired now key s d :
  deadlines s !! key = Some d → d < now →
  window_after now key s = {[pretty now := now]}.
Proof.
  intros Hd Hlt. unfold window_after, touch, expired. rewrite Hd.
  apply Z.ltb_lt in Hlt. rewrite Hlt.
  unfold zset_of, del. cbn. rewrite lookup_delete_eq. cbn.
  rewrite insert_empty. rewrite map_filter_singleton_True; [reflexivity|].
  apply fresh_in_window.
Qed.

(** X4. A minute of silence resets a client.  Whatever the store held, once the
    limiter has recorded a request of the client at [last], a request of the
    same client more than 60 s later finds the key gone: it is counted 1,
    admitted with X-RateLimit-Remaining 4, and leaves a sorted set holding
    nothing but its own entry. *)
Theorem silence_resets_window env client last t w :
  redisUp env (trips w) = true →
  redisUp env (S (trips w)) = true →
  last + 60000 < t →
  let w1 := (slidingRateLimiter env last client w).2 in
  let r := slidingRateLimiter env t client w1 in
  r.1 = Ok NextCalled ∧
  headers (res r.2) !! "X-RateLimit-Remaining" = Some (Num 4) ∧
  zset_of (slidingKey client) (store r.2) = {[pretty t := t]}.
Proof.
  intros H1 H2 Hlate. cbn zeta.
  destruct (sliding_up_flow env last client w H1) as [_ Hs].
  assert (Ht : trips (slidingRateLimiter env last client w).2 = S (trips w)).
  { rewrite sliding_up by exact H1. cbn zeta.
    destruct (Sliding.MAX_REQUESTS <? _); reflexivity. }
  set (w1 := (slidingRateLimiter env last client w).2) in *.
  assert (Hw : window_after t (slidingKey client) (store w1)
               = {[pretty t := t]}).
  { apply (window_after_expired _ _ _ (last + 60000)); [|exact Hlate].
    rewrite Hs, record_store. cbn. apply lookup_insert_eq. }
  assert (Hc : slidingCount t (slidingKey client) (store w1) = 1).
  { unfold slidingCount. rewrite Hw, map_size_singleton. reflexivity. }
  rewrite sliding_up by now rewrite Ht. cbn zeta. rewrite Hc.
  change (Sliding.MAX_REQUESTS <? 1) with false. cbn [fst snd].
  split; [reflexivity|split].
  - cbn [res with_res headers].
    now destruct (slidingHeaders_lookup 1 (headers (res w1))) as [_ ->].
  - unfold recorded. cbn [store with_res with_store].
    now rewrite record_zset.
Qed.

Lemma silence_resets_window_witness :
  let w1 := (slidingRateLimiter storeUp 6 "1.2.3.4" afterFive).2 in
  let r := slidingRateLimiter storeUp 60007 "1.2.3.4" w1 in
  r.1 = Ok NextCalled ∧
  headers (res r.2) !! "X-RateLimit-Remaining" = Some (Num 4) ∧
  zset_of (slidingKey "1.2.3.4") (store r.2) = {[pretty 60007 := 60007]}.
Proof.
  apply (silence_resets_window storeUp "1.2.3.4" 6 60007 afterFive);
    [reflexivity | reflexivity | lia].
Defined.

Lemma zset_live_ext now key s s' :
  zsets s !! key = zsets s' !! key →
  deadlines s !! key = deadlines s' !! key →
  zset_of key (touch now key s) = zset_of key (touch now key s').
Proof.
  intros Hz Hd. unfold touch, expired. rewrite Hd.
  destruct (deadlines s' !! key) as [d|]; [destruct (d <? now)|];
    unfold zset_of, del; cbn; rewrite ?lookup_delete_eq, ?Hz; reflexivity.
Qed.

Lemma window_after_other now now' key key' s :
  key ≠ key' →
  window_after now key' (record now' key s) = window_after now key' s.
Proof.
  intros Hne. unfold window_after. f_equal. f_equal.
  apply zset_live_ext; rewrite record_store; cbn;
    rewrite lookup_insert_ne by exact Hne;
    unfold touch; destruct (expired now' key s); try reflexivity;
    unfold del; cbn; now rewrite lookup_delete_ne.
Qed.

(** X5. Clients are limited independently of each other: a request of client [a]
    changes neither the count nor the decision that a request of another
    client [b] gets. *)
Theorem clients_are_independent env a b ta tb w :
  a ≠ b →
  redisUp env (trips w) = true →
  redisUp env (S (trips w)) = true →
  let w1 := (slidingRateLimiter env ta a w).2 in
  slidingCount tb (slidingKey b) (store w1)
    = slidingCount tb (slidingKey b) (store w) ∧
  (slidingRateLimiter env tb b w1).1 = (slidingRateLimiter env tb b w).1.
Proof.
  intros Hab H1 H2. cbn zeta.
  destruct (sliding_up_flow env ta a w H1) as [_ Hs].
  assert (Ht : trips (slidingRateLimiter env ta a w).2 = S (trips w)).
  { rewrite sliding_up by exact H1. cbn zeta.
    destruct (Sliding.MAX_REQUESTS <? _); reflexivity. }
  set (w1 := (slidingRateLimiter env ta a w).2) in *.
  assert (Hk : slidingKey a ≠ slidingKey b).
  { unfold slidingKey. intros E. apply Hab.
    now apply (inj (String.app "rate:sw:")) in E. }
  assert (Hc : slidingCount tb (slidingKey b) (store w1)
               = slidingCount tb (slidingKey b) (store w)).
  { unfold slidingCount. rewrite Hs. now rewrite window_after_other. }
  split; [exact Hc|].
  destruct (sliding_up_flow env tb b w1) as [Hf1 _]; [now rewrite Ht|].
  destruct (sliding_up_flow env tb b w H1) as [Hf _].
  now rewrite Hf1, Hf, Hc.
Qed.

Lemma clients_are_independent_witness :
  let w1 := (slidingRateLimiter storeUp 6 "1.2.3.4" afterFive).2 in
  slidingCount 7 (slidingKey "5.6.7.8") (store w1)
    = slidingCount 7 (slidingKey "5.6.7.8") (store afterFive) ∧
  (slidingRateLimiter storeUp 7 "5.6.7.8" w1).1
    = (slidingRateLimiter storeUp 7 "5.6.7.8" afterFive).1.
Proof.
  apply (clients_are_independent storeUp "1.2.3.4" "5.6.7.8" 6 7 afterFive);
    [discriminate | reflexivity | reflexivity].
Defined.

(** ** The fixed window: counting, reset and its edge cases *)

Lemma fixedDecisions_counts key ts s :
  fixedDecisions key ts s
    = (λ c, Fixed.MAX_REQUESTS <? c) <$> fixedCounts key ts s.
Proof.
  revert s. induction ts as [|t ts IH]; intros s; [reflexivity|].
  cbn [fixedDecisions fixedCounts fmap list_fmap]. now rewrite IH.
Qed.

Lemma fixedCounts_app key l1 l2 s :
  fixedCounts key (l1 ++ l2) s
    = fixedCounts key l1 s ++ fixedCounts key l2 (fixedStore key l1 s).
Proof.
  revert s. induction l1 as [|t l1 IH]; intros s; [reflexivity|].
  cbn [app fixedCounts fixedStore]. now rewrite IH.
Qed.

Lemma touch_touch now key s : touch now key (touch now key s) = touch now key s.
Proof. apply touch_fixed, touch_not_expired. Qed.

Lemma incr_touch now key s : incr now key (touch now key s) = incr now key s.
Proof. unfold incr. now rewrite touch_touch. Qed.

(** While the window is open the counter runs on: counts n+1, n+2, ... and
    the deadline stays where the first request of the window put it. *)
Lemma fixed_counts_open key ts :
  ∀ s n d,
    counters s !! key = Some n → 1 <= n →
    deadlines s !! key = Some d → Forall (λ t, t <= d) ts →
    fixedCounts key ts s = (λ i, n + Z.of_nat i) <$> seq 1 (length ts) ∧
    counters (fixedStore key ts s) !! key = Some (n + Z.of_nat (length ts)) ∧
    deadlines (fixedStore key ts s) !! key = Some d.
Proof.
  induction ts as [|t ts IH]; intros s n d Hc Hn Hd Hall.
  - cbn. rewrite Z.add_0_r. now repeat split.
  - apply Forall_cons in Hall as [Ht Hall].
    destruct (fixed_next t key s n d Hc Hn Hd Ht) as (H1 & Hc' & Hd').
    destruct (IH _ (n + 1) d Hc' ltac:(lia) Hd' Hall) as (E & Ec & Ed).
    cbn [fixedCounts fixedStore length seq fmap list_fmap].
    rewrite H1, E. repeat split.
    + f_equal; try lia.
      rewrite <- (seq_shift (length ts) 1), <- list_fmap_compose.
      apply list_fmap_ext. intros _ i _. cbn. lia.
    + rewrite Ec. f_equal. lia.
    + exact Ed.
Qed.

(** The first request after the deadline finds the key gone and opens a new
    window. *)
Lemma fixed_restart now key s d :
  deadlines s !! key = Some d → d < now →
  fixedCount now key s = 1 ∧
  counters (fixedRecord now key s) !! key = Some 1 ∧
  deadlines (fixedRecord now key s) !! key = Some (now + 60000).
Proof.
  intros Hd Hlt.
  assert (Ht : touch now key s = del key s).
  { unfold touch, expired. rewrite Hd. apply Z.ltb_lt in Hlt. now rewrite Hlt. }
  assert (Hf : fixedCount now key s = fixedCount now key (del key s)
               ∧ fixedRecord now key s = fixedRecord now key (del key s)).
  { unfold fixedRecord, fixedCount. rewrite <- Ht, incr_touch. now split. }
  destruct Hf as [-> ->].
  apply fixed_first; unfold del; cbn; apply lookup_delete_eq.
Qed.

Lemma flows_of_small_counts (cs : list Z) :
  Forall (λ c, c <= Fixed.MAX_REQUESTS) cs →
  Forall (λ o, o = Ok NextCalled)
         (flowOf <$> ((λ c, Fixed.MAX_REQUESTS <? c) <$> cs)).
Proof.
  intros H. rewrite <- list_fmap_compose. apply Forall_fmap.
  eapply Forall_impl; [exact H|]. intros c Hc. cbn.
  apply Z.ltb_ge in Hc. unfold flowOf. now rewrite Hc.
Qed.

Lemma counts_bounded (k : nat) :
  (k ≤ 4)%nat →
  Forall (λ c, c <= Fixed.MAX_REQUESTS) ((λ i, 1 + Z.of_nat i) <$> seq 1 k).
Proof.
  intros Hk. apply Forall_fmap, Forall_forall. intros i Hi.
  apply elem_of_seq in Hi. cbn. unfold Fixed.MAX_REQUESTS. lia.
Qed.

(** X6. The fixed-window limiter on a client that has no key yet, the store
    answering: as long as the requests come before the window opened by the
    first one closes, the k-th request is counted k, so exactly the requests
    after the fifth are rejected. *)
Theorem fixed_window_counts_up env client w t0 ts :
  (∀ k, redisUp env k = true) →
  counters (store w) !! fixedKey client = None →
  deadlines (store w) !! fixedKey client = None →
  Forall (λ t, t <= t0 + 60000) ts →
  (evaluateFixed env client (t0 :: ts) w).1
    = (λ k, flowOf (Fixed.MAX_REQUESTS <? Z.of_nat k))
        <$> seq 1 (S (length ts)).
Proof.
  intros Hup Hc Hd Hall.
  rewrite evaluateFixed_decisions by exact Hup.
  rewrite fixedDecisions_counts.
  destruct (fixed_first t0 (fixedKey client) (store w) Hc Hd) as (H1 & Hc' & Hd').
  cbn [fixedCounts]. rewrite H1.
  destruct (fixed_counts_open _ ts _ 1 _ Hc' ltac:(lia) Hd' Hall) as (E & _).
  rewrite E. cbn [seq fmap list_fmap]. f_equal.
  rewrite <- (seq_shift (length ts) 1), <- !list_fmap_compose.
  apply list_fmap_ext. intros _ i _. cbn. do 2 f_equal. lia.
Qed.

Lemma fixed_window_counts_up_witness :
  (evaluateFixed storeUp "1.2.3.4" [0; 10; 20; 30; 40; 50; 60000] initialWorld).1
    = (λ k, flowOf (Fixed.MAX_REQUESTS <? Z.of_nat k)) <$> seq 1 7.
Proof.
  apply (fixed_window_counts_up storeUp "1.2.3.4" initialWorld 0
           [10; 20; 30; 40; 50; 60000]).
  - reflexivity.
  - reflexivity.
  - reflexivity.
  - repeat constructor; lia.
Defined.

(** X7. The burst at the boundary of a fixed window.  Up to five requests in the
    window opened at [t0] and up to five more right after its deadline are
    all admitted, however close to each other the two groups are: the count
    restarts at 1 with the first request after the deadline. *)
Theorem fixed_window_boundary_burst env client w t0 early b late :
  (∀ k, redisUp env k = true) →
  counters (store w) !! fixedKey client = None →
  deadlines (store w) !! fixedKey client = None →
  (length early ≤ 4)%nat → (length late ≤ 4)%nat →
  Forall (λ t, t <= t0 + 60000) early →
  t0 + 60000 < b →
  Forall (λ t, t <= b + 60000) late →
  Forall (λ o, o = Ok NextCalled)
         (evaluateFixed env client (t0 :: early ++ b :: late) w).1.
Proof.
  intros Hup Hc Hd Hle Hll Hearly Hb Hlate.
  rewrite evaluateFixed_decisions by exact Hup.
  rewrite fixedDecisions_counts. apply flows_of_small_counts.
  set (key := fixedKey client) in *.
  destruct (fixed_first t0 key (store w) Hc Hd) as (H1 & Hc1 & Hd1).
  destruct (fixed_counts_open key early _ 1 _ Hc1 ltac:(lia) Hd1 Hearly)
    as (Ee & _ & Hde).
  set (s1 := fixedStore key early (fixedRecord t0 key (store w))) in *.
  destruct (fixed_restart b key s1 _ Hde Hb) as (Hb1 & Hcb & Hdb).
  destruct (fixed_counts_open key late _ 1 _ Hcb ltac:(lia) Hdb Hlate)
    as (El & _).
  change (fixedCounts key (t0 :: early ++ b :: late) (store w))
    with (fixedCount t0 key (store w)
          :: fixedCounts key (early ++ b :: late) (fixedRecord t0 key (store w))).
  rewrite fixedCounts_app. fold s1.
  change (fixedCounts key (b :: late) s1)
    with (fixedCount b key s1 :: fixedCounts key late (fixedRecord b key s1)).
  rewrite H1, Ee, Hb1, El.
  constructor; [unfold Fixed.MAX_REQUESTS; lia|].
  apply Forall_app. split; [now apply counts_bounded|].
  constructor; [unfold Fixed.MAX_REQUESTS; lia|].
  now apply counts_bounded.
Qed.

Lemma fixed_window_boundary_burst_witness :
  Forall (λ o, o = Ok NextCalled)
         (evaluateFixed storeUp "1.2.3.4"
            (0 :: [59997; 59998; 59999; 60000]
               ++ 60001 :: [60002; 60003; 60004; 60005])
            initialWorld).1.
Proof.
  apply (fixed_window_boundary_burst storeUp "1.2.3.4" initialWorld 0
           [59997; 59998; 59999; 60000] 60001 [60002; 60003; 60004; 60005]).
  - reflexivity.
  - reflexivity.
  - reflexivity.
  - cbn. lia.
  - cbn. lia.
  - repeat constructor; lia.
  - lia.
  - repeat constructor; lia.
Defined.

(** *** A key left without a deadline *)

Lemma rateLimiter_up env now client w :
  redisUp env (trips w) = true →
  redisUp env (S (trips w)) = true →
  let r := rateLimiter env now client w in
  r.1 = flowOf (Fixed.MAX_REQUESTS <? fixedCount now (fixedKey client) (store w)) ∧
  store r.2 = fixedRecord now (fixedKey client) (store w) ∧
  (trips w < trips r.2 ≤ trips w + 2)%nat.
Proof.
  intros H1 H2. cbn zeta. unfold rateLimiter, try_catch, bind, redis_call.
  unfold fixedRecord, fixedCount. rewrite H1.
  destruct (incr now (fixedKey client) (store w)) as [c s1]. cbn [fst snd].
  destruct (c =? 1); cbn -[Z.ltb expire].
  - rewrite H2.
    destruct (expire now _ Fixed.WINDOW_SECONDS s1) as [r s2].
    cbn -[Z.ltb]. destruct (Fixed.MAX_REQUESTS <? c); cbn; repeat split; lia.
  - destruct (Fixed.MAX_REQUESTS <? c); cbn; repeat split; lia.
Qed.

Lemma evaluateFixed_decisions_from env client ts w :
  (∀ k, (trips w ≤ k)%nat → redisUp env k = true) →
  (evaluateFixed env client ts w).1
    = flowOf <$> fixedDecisions (fixedKey client) ts (store w).
Proof.
  revert w. induction ts as [|t ts IH]; intros w Hup; [reflexivity|].
  cbn [evaluateFixed fixedDecisions fmap list_fmap].
  destruct (rateLimiter_up env t client w) as (Hf & Hs & Ht);
    [apply Hup; lia | apply Hup; lia |].
  destruct (rateLimiter env t client w) as [o w1]. cbn [fst snd] in *.
  specialize (IH w1). destruct (evaluateFixed env client ts w1) as [os w2].
  cbn [fst] in *. rewrite Hf, IH, Hs; [reflexivity|].
  intros k Hk. apply Hup. lia.
Qed.

Lemma rateLimiter_expire_lost env now client w :
  redisUp env (trips w) = true →
  fixedCount now (fixedKey client) (store w) = 1 →
  redisUp env (S (trips w)) = false →
  let r := rateLimiter env now client w in
  r.1 = Ok NextCalled ∧
  store r.2 = (incr now (fixedKey client) (store w)).2 ∧
  trips r.2 = S (S (trips w)).
Proof.
  intros H1 Hone H2. cbn zeta. unfold rateLimiter, try_catch, bind, redis_call.
  unfold fixedCount in Hone. rewrite H1.
  destruct (incr now (fixedKey client) (store w)) as [c s1].
  cbn [fst snd] in *. subst c. cbn. rewrite H2. cbn. repeat split.
Qed.

Lemma fixed_stuck key ts :
  ∀ s n,
    counters s !! key = Some n → 1 <= n → deadlines s !! key = None →
    fixedCounts key ts s = (λ i, n + Z.of_nat i) <$> seq 1 (length ts).
Proof.
  induction ts as [|t ts IH]; intros s n Hc Hn Hd; [reflexivity|].
  assert (Ht : touch t key s = s).
  { apply touch_fixed. unfold expired. now rewrite Hd. }
  assert (H1 : fixedCount t key s = n + 1).
  { unfold fixedCount, incr. rewrite Ht. cbn. now rewrite Hc. }
  assert (Hr : counters (fixedRecord t key s) !! key = Some (n + 1)
               ∧ deadlines (fixedRecord t key s) !! key = None).
  { unfold fixedRecord. rewrite H1.
    destruct (n + 1 =? 1) eqn:E; [apply Z.eqb_eq in E; lia|].
    unfold incr. rewrite Ht, Hc. cbn. rewrite lookup_insert_eq. now split. }
  destruct Hr as [Hc' Hd'].
  cbn [fixedCounts length seq fmap list_fmap].
  rewrite H1, (IH _ (n + 1) Hc' ltac:(lia) Hd').
  f_equal; try lia.
  rewrite <- (seq_shift (length ts) 1), <- list_fmap_compose.
  apply list_fmap_ext. intros _ i _. cbn. lia.
Qed.

(** X8. The fixed-window limiter sets the deadline only on a count of 1.  If that
    EXPIRE is lost (the INCR got through, the store failed right after), the
    request is let through, but the key stays without a deadline: from then on
    the counter only grows, whenever the later requests come, so the client's
    sixth request and all after it are rejected for good. *)
Theorem fixed_key_without_deadline_never_resets env client w t0 ts :
  redisUp env (trips w) = true →
  redisUp env (S (trips w)) = false →
  (∀ k, (trips w + 2 ≤ k)%nat → redisUp env k = true) →
  counters (store w) !! fixedKey client = None →
  deadlines (store w) !! fixedKey client = None →
  (evaluateFixed env client (t0 :: ts) w).1
    = Ok NextCalled
        :: ((λ k, flowOf (Fixed.MAX_REQUESTS <? Z.of_nat k))
              <$> seq 2 (length ts)).
Proof.
  intros H1 H2 Hup Hc Hd. set (key := fixedKey client) in *.
  destruct (fixed_first t0 key (store w) Hc Hd) as (Hone & _).
  destruct (rateLimiter_expire_lost env t0 client w H1 Hone H2)
    as (Hf & Hs & Ht).
  assert (Hinc : counters (incr t0 key (store w)).2 !! key = Some 1
                 ∧ deadlines (incr t0 key (store w)).2 !! key = None).
  { assert (Htouch : touch t0 key (store w) = store w).
    { apply touch_fixed. unfold expired. now rewrite Hd. }
    unfold incr. rewrite Htouch, Hc. cbn. rewrite lookup_insert_eq. now split. }
  destruct Hinc as [Hc1 Hd1].
  cbn [evaluateFixed].
  destruct (rateLimiter env t0 client w) as [o w1]. cbn [fst snd] in *.
  pose proof (evaluateFixed_decisions_from env client ts w1) as He.
  destruct (evaluateFixed env client ts w1) as [os w2]. cbn [fst] in *.
  rewrite Hf, He by (intros k Hk; apply Hup; lia).
  apply f_equal. rewrite fixedDecisions_counts, Hs. fold key.
  rewrite (fixed_stuck key ts _ 1 Hc1 ltac:(lia) Hd1).
  rewrite <- (seq_shift (length ts) 1), <- !list_fmap_compose.
  apply list_fmap_ext. intros _ i _. cbn. do 2 f_equal. lia.
Qed.

Lemma fixed_key_without_deadline_never_resets_witness :
  (evaluateFixed expireLost "1.2.3.4"
     [0; 1000000; 2000000; 3000000; 4000000; 5000000; 6000000]
     initialWorld).1
    = Ok NextCalled
        :: ((λ k, flowOf (Fixed.MAX_REQUESTS <? Z.of_nat k)) <$> seq 2 6).
Proof.
  apply (fixed_key_without_deadline_never_resets expireLost "1.2.3.4"
           initialWorld 0
           [1000000; 2000000; 3000000; 4000000; 5000000; 6000000]).
  - reflexivity.
  - reflexivity.
  - intros k Hk. cbn in Hk. destruct k as [|[|k]]; [lia|lia|reflexivity].
  - reflexivity.
  - reflexivity.
Defined.

(** ** The breaker and the pipeline, for every downstream behaviour *)

Section BreakerAlways.
Context (env : Env).

Lemma guardedCall_rescue now w data :
  failsAt env (issued w) →
  upstream env (S (issued w)) = Resolved data →
  guardedCall env now w = (Ok tt, after_rescue data w).
Proof.
  intros [e1 H1] H2. unfold guardedCall, try_catch, bind.
  rewrite (retry_second _ _ _ H1), H2. reflexivity.
Qed.

(** Every guarded call ends in one of three ways. *)
Lemma guardedCall_cases now w :
  (∃ data, upstream env (issued w) = Resolved data ∧
           guardedCall env now w = (Ok tt, after_success data w)) ∨
  (∃ data, failsAt env (issued w) ∧
           upstream env (S (issued w)) = Resolved data ∧
           guardedCall env now w = (Ok tt, after_rescue data w)) ∨
  (failsAt env (issued w) ∧ failsAt env (S (issued w)) ∧
   guardedCall env now w = (Ok tt, after_failure now w)).
Proof.
  destruct (upstream env (issued w)) as [d|e1] eqn:H1.
  - left. exists d. split; [reflexivity|]. now apply guardedCall_success.
  - right. assert (F1 : failsAt env (issued w)) by (now exists e1).
    destruct (upstream env (S (issued w))) as [d|e2] eqn:H2.
    + left. exists d. repeat split; [exact F1|]. now apply guardedCall_rescue.
    + right. assert (F2 : failsAt env (S (issued w))) by (now exists e2).
      repeat split; try assumption. now apply guardedCall_failure.
Qed.

Lemma guardedCall_invariant now w :
  circuitOpen (breaker w) = false →
  0 <= failureCount (breaker w) < FAILURE_THRESHOLD →
  breakerInv (breaker (guardedCall env now w).2).
Proof.
  intros Hc Hn. unfold FAILURE_THRESHOLD in *.
  destruct (guardedCall_cases now w)
    as [(d & _ & ->)|[(d & _ & _ & ->)|(_ & _ & ->)]]; cbn [snd].
  - unfold after_success, breakerInv, FAILURE_THRESHOLD. cbn. rewrite Hc.
    repeat split; try lia; discriminate.
  - unfold after_rescue, breakerInv, FAILURE_THRESHOLD. cbn. rewrite Hc.
    repeat split; try lia; discriminate.
  - rewrite after_failure_breaker, Hc.
    unfold breakerInv, FAILURE_THRESHOLD. cbn.
    destruct (3 <=? failureCount (breaker w) + 1) eqn:E;
      [apply Z.leb_le in E|apply Z.leb_gt in E];
      repeat split; try lia; try discriminate; auto.
Qed.

Lemma callSlow_invariant now w :
  breakerInv (breaker w) → breakerInv (breaker (callSlow env now w).2).
Proof.
  intros Hinv. pose proof Hinv as [Hrange Hopen].
  destruct (circuitOpen (breaker w)) eqn:Ho.
  - destruct (Z.lt_ge_cases (now - lastFailureTime (breaker w)) OPEN_TIMEOUT_MS)
      as [Hlt|Hge].
    + rewrite callSlow_rejects by assumption. exact Hinv.
    + rewrite callSlow_probe by assumption.
      apply guardedCall_invariant; [reflexivity|].
      cbn. unfold FAILURE_THRESHOLD. lia.
  - rewrite callSlow_closed by exact Ho.
    apply guardedCall_invariant; [exact Ho|].
    assert (failureCount (breaker w) ≠ FAILURE_THRESHOLD).
    { intros E. apply Hopen in E. discriminate. }
    lia.
Qed.

(** The limiter touches neither the breaker nor the downstream. *)
Lemma sliding_frame now client w :
  let r := slidingRateLimiter env now client w in
  breaker r.2 = breaker w ∧ issued r.2 = issued w ∧ slept r.2 = slept w ∧
  (∃ f, r.1 = Ok f).
Proof.
  cbn zeta. destruct (redisUp env (trips w)) eqn:Hup.
  - rewrite sliding_up by exact Hup. cbn zeta.
    destruct (Sliding.MAX_REQUESTS <? _); cbn; eauto 6.
  - rewrite sliding_down by exact Hup. cbn. eauto 6.
Qed.

(** Every request is either answered 429 by the limiter, with breaker and
    downstream untouched, or handed to its route on a response that is still
    at status 200 with nothing sent. *)
Lemma handle_cases req w :
  (∃ c, Sliding.MAX_REQUESTS < c ∧
        (handle env req w).1
          = Ok (mkRes 429 (slidingHeaders c ∅) (Some tooManySliding)) ∧
        breaker (handle env req w).2 = breaker w ∧
        issued (handle env req w).2 = issued w ∧
        slept (handle env req w).2 = slept w) ∨
  (∃ w0, breaker w0 = breaker w ∧ issued w0 = issued w ∧ slept w0 = slept w ∧
         status (res w0) = 200 ∧ body (res w0) = None ∧
         handle env req w = (let! _ := route env req in get res) w0).
Proof.
  destruct (redisUp env (trips w)) eqn:Hup.
  - destruct (Z.lt_ge_cases Sliding.MAX_REQUESTS
                (slidingCount (at_ms req) (slidingKey (ip req)) (store w)))
      as [Hlt|Hge].
    + left. eexists. split; [exact Hlt|].
      rewrite handle_rejected by assumption. cbn. repeat split.
    + right. rewrite handle_admitted by (try assumption; lia). cbn zeta.
      exists (with_res
                (mkRes 200
                   (slidingHeaders
                      (slidingCount (at_ms req) (slidingKey (ip req)) (store w))
                      ∅) None)
                (recorded (at_ms req) (ip req) w)).
      repeat split.
  - right. rewrite handle_degraded by exact Hup.
    exists (degraded degradedLine (with_res freshRes w)). repeat split.
Qed.

Lemma guardedCall_ok now w : (guardedCall env now w).1 = Ok tt.
Proof.
  destruct (guardedCall_cases now w)
    as [(d & _ & ->)|[(d & _ & _ & ->)|(_ & _ & ->)]]; reflexivity.
Qed.

Lemma callSlow_ok now w : (callSlow env now w).1 = Ok tt.
Proof.
  destruct (circuitOpen (breaker w)) eqn:Ho.
  - destruct (Z.lt_ge_cases (now - lastFailureTime (breaker w)) OPEN_TIMEOUT_MS)
      as [Hlt|Hge].
    + now rewrite callSlow_rejects.
    + rewrite callSlow_probe by assumption. apply guardedCall_ok.
  - rewrite callSlow_closed by exact Ho. apply guardedCall_ok.
Qed.

Lemma route_ok req w : (route env req w).1 = Ok tt.
Proof. unfold route. destruct (path req); [reflexivity|apply callSlow_ok]. Qed.

Lemma route_get_res req w0 :
  (let! _ := route env req in get res) w0
    = (Ok (res (route env req w0).2), (route env req w0).2).
Proof.
  unfold bind, get. pose proof (route_ok req w0) as H.
  destruct (route env req w0) as [o w']. cbn [fst snd] in *. now subst o.
Qed.

Lemma handle_invariant req w :
  breakerInv (breaker w) → breakerInv (breaker (handle env req w).2).
Proof.
  intros Hinv.
  destruct (handle_cases req w)
    as [(c & _ & _ & -> & _)|(w0 & Hb & _ & _ & _ & _ & ->)]; [exact Hinv|].
  rewrite route_get_res. cbn [snd]. unfold route.
  destruct (path req).
  - cbn. now rewrite Hb.
  - apply callSlow_invariant. now rewrite Hb.
Qed.

(** X10. The breaker's invariant under one-at-a-time service.  When the
    requests are served one after the other, each handler running to its
    response before the next request starts (no call arrives while another
    awaits the downstream), then whatever the downstream, the store and the
    requests do, the failure tally stays within 0..FAILURE_THRESHOLD and the
    breaker is open exactly when the tally equals FAILURE_THRESHOLD. *)
Theorem breaker_invariant reqs w :
  breakerInv (breaker w) → breakerInv (breaker (serve env reqs w).2).
Proof.
  revert w. induction reqs as [|req reqs IH]; intros w Hinv; [exact Hinv|].
  cbn [serve].
  pose proof (handle_invariant req w Hinv) as H1.
  destruct (handle env req w) as [o w1]. cbn [snd] in H1.
  specialize (IH w1 H1). destruct (serve env reqs w1) as [os w2].
  exact IH.
Qed.

End BreakerAlways.

Lemma breaker_invariant_witness :
  breakerInv
    (breaker (serve flakyDownstream
                (callSlowAt "1.2.3.4" <$> [1; 2; 3; 4; 10003; 10004])
                initialWorld).2).
Proof.
  apply (breaker_invariant flakyDownstream). unfold breakerInv. cbn.
  unfold FAILURE_THRESHOLD. repeat split; try lia; discriminate.
Defined.

Section PipelineAlways.
Context (env : Env).

Lemma guardedCall_res now w :
  circuitOpen (breaker w) = false →
  let r := res (guardedCall env now w).2 in
  (status r, body r)
    = match upstream env (issued w) with
      | Resolved data => (status (res w), Some data)
      | Rejected _ =>
          match upstream env (S (issued w)) with
          | Resolved data => (status (res w), Some data)
          | Rejected _ => (504, Some upstreamFailure)
          end
      end.
Proof.
  intros Hc. cbn zeta.
  destruct (guardedCall_cases env now w)
    as [(d & H1 & ->)|[(d & [e1 H1] & H2 & ->)|([e1 H1] & [e2 H2] & ->)]];
    rewrite H1, ?H2; reflexivity.
Qed.

Lemma callSlow_res now w :
  status (res w) = 200 →
  let r := res (callSlow env now w).2 in
  (status r, body r) = callSlowOutcome env now w.
Proof.
  intros Hs. cbn zeta. unfold callSlowOutcome.
  destruct (circuitOpen (breaker w)) eqn:Ho; cbn [andb].
  - destruct (now - lastFailureTime (breaker w) <? OPEN_TIMEOUT_MS) eqn:Hc.
    + apply Z.ltb_lt in Hc. now rewrite callSlow_rejects.
    + apply Z.ltb_ge in Hc. rewrite callSlow_probe by assumption.
      rewrite guardedCall_res by reflexivity. cbn. now rewrite Hs.
  - rewrite callSlow_closed by exact Ho.
    rewrite guardedCall_res by exact Ho. now rewrite Hs.
Qed.

(** X14. GET /call-slow, once the limiter lets it through (the count is within
    the limit, or the store cannot be reached): the response is 503 "circuit
    open" while the breaker is open and cooling down; otherwise 200 with the
    payload of the first downstream attempt that answers, the downstream's
    data passed through unchanged; otherwise, both attempts having failed,
    504 "Upstream failure". *)
Theorem call_slow_response client now w :
  redisUp env (trips w) = false ∨
  slidingCount now (slidingKey client) (store w) <= Sliding.MAX_REQUESTS →
  ∃ r, (handle env (callSlowAt client now) w).1 = Ok r ∧
       (status r, body r) = callSlowOutcome env now w.
Proof.
  intros Hlet.
  assert (Hrun : ∃ w0, status (res w0) = 200 ∧ breaker w0 = breaker w ∧
                       issued w0 = issued w ∧
                       handle env (callSlowAt client now) w
                       = (let! _ := route env (callSlowAt client now) in get res)
                           w0).
  { destruct (redisUp env (trips w)) eqn:Hup.
    - destruct Hlet as [|Hle]; [discriminate|].
      rewrite handle_admitted by assumption. cbn zeta.
      eexists. split; [|split; [|split; [|reflexivity]]]; reflexivity.
    - rewrite handle_degraded by exact Hup.
      eexists. split; [|split; [|split; [|reflexivity]]]; reflexivity. }
  destruct Hrun as (w0 & Hs & Hb & Hi & ->).
  rewrite route_get_res. cbn [fst]. eexists. split; [reflexivity|].
  change (route env (callSlowAt client now) w0) with (callSlow env now w0).
  rewrite (callSlow_res now w0 Hs).
  unfold callSlowOutcome. now rewrite Hb, Hi.
Qed.

End PipelineAlways.

Lemma call_slow_response_witness :
  ∃ r, (handle flakyDownstream (callSlowAt "1.2.3.4" 7) initialWorld).1 = Ok r ∧
       (status r, body r) = callSlowOutcome flakyDownstream 7 initialWorld.
Proof.
  apply (call_slow_response flakyDownstream "1.2.3.4" 7 initialWorld).
  right. vm_compute. discriminate.
Defined.

Section BreakerOutcomes.
Context (env : Env).

(** X11. Success heals.  A call that is let through (the breaker is closed, or
    its cooldown has passed) and gets an answer from the downstream, at once
    or from the retry, leaves the breaker closed with a tally of 0, whatever
    the tally was; the failed first attempt of a rescued call is not counted.
    The payload is sent with the status left untouched. *)
Theorem success_resets_tally now w data :
  circuitOpen (breaker w) = false ∨
    OPEN_TIMEOUT_MS <= now - lastFailureTime (breaker w) →
  upstream env (issued w) = Resolved data ∨
    (failsAt env (issued w) ∧ upstream env (S (issued w)) = Resolved data) →
  let w1 := (callSlow env now w).2 in
  breaker w1 = mkBreaker 0 false (lastFailureTime (breaker w)) ∧
  body (res w1) = Some data ∧
  status (res w1) = status (res w).
Proof.
  intros Hlet Hans. cbn zeta.
  assert (Hg : ∃ w0, circuitOpen (breaker w0) = false ∧
                     lastFailureTime (breaker w0) = lastFailureTime (breaker w) ∧
                     issued w0 = issued w ∧ res w0 = res w ∧
                     callSlow env now w = guardedCall env now w0).
  { destruct (circuitOpen (breaker w)) eqn:Ho.
    - destruct Hlet as [|Hge]; [discriminate|].
      exists (half_open w). rewrite callSlow_probe by assumption.
      repeat split.
    - exists w. rewrite callSlow_closed by exact Ho. repeat split. exact Ho. }
  destruct Hg as (w0 & Hc & Hl & Hi & Hr & ->).
  rewrite <- Hi in Hans.
  destruct Hans as [H1|[F1 H2]].
  - rewrite (guardedCall_success env now w0 data H1). cbn.
    now rewrite Hc, Hl, Hr.
  - rewrite (guardedCall_rescue env now w0 data F1 H2). cbn.
    now rewrite Hc, Hl, Hr.
Qed.

Lemma handle_open_cooling req w :
  circuitOpen (breaker w) = true →
  at_ms req - lastFailureTime (breaker w) < OPEN_TIMEOUT_MS →
  let r := handle env req w in
  breaker r.2 = breaker w ∧ issued r.2 = issued w ∧ slept r.2 = slept w ∧
  (path req = CallSlow → statusOf r.1 = Some 503 ∨ statusOf r.1 = Some 429).
Proof.
  intros Ho Hlt. cbn zeta.
  destruct (handle_cases env req w)
    as [(c & _ & E1 & Hb & Hi & Hsl)|(w0 & Hb & Hi & Hsl & Hs & _ & E)].
  - repeat split; try assumption. intros _. right. now rewrite E1.
  - rewrite E, route_get_res. cbn [fst snd statusOf]. unfold route.
    destruct (path req).
    + cbn. repeat split; try assumption. discriminate.
    + rewrite callSlow_rejects by (rewrite Hb; assumption). cbn.
      repeat split; try assumption. intros _. now left.
Qed.

(** X12. While the breaker is open and cooling down, the downstream is shielded:
    whatever requests arrive, from whichever clients and whatever the state of
    the limiter and of its store, no downstream attempt is issued, no backoff
    is slept and the breaker does not move; every GET /call-slow is answered
    503, or 429 if the limiter rejects it first. *)
Theorem open_breaker_shields_downstream reqs w :
  circuitOpen (breaker w) = true →
  Forall (λ req, at_ms req - lastFailureTime (breaker w) < OPEN_TIMEOUT_MS)
         reqs →
  let r := serve env reqs w in
  breaker r.2 = breaker w ∧ issued r.2 = issued w ∧ slept r.2 = slept w ∧
  Forall2 (λ req o, path req = CallSlow →
                    statusOf o = Some 503 ∨ statusOf o = Some 429)
          reqs r.1.
Proof.
  intros Ho Hall. cbn zeta. revert w Ho Hall.
  induction reqs as [|req reqs IH]; intros w Ho Hall.
  - cbn. repeat split. constructor.
  - apply Forall_cons in Hall as [Hreq Hall].
    destruct (handle_open_cooling req w Ho Hreq) as (Hb & Hi & Hs & Hst).
    cbn [serve]. destruct (handle env req w) as [o w1]. cbn [fst snd] in *.
    destruct (IH w1) as (Hb' & Hi' & Hs' & Hall').
    + now rewrite Hb.
    + now rewrite Hb.
    + destruct (serve env reqs w1) as [os w2]. cbn [fst snd] in *.
      repeat split; try congruence. now constructor.
Qed.

(** X15. A request that the limiter rejects never reaches its route: it is
    answered 429 and, whatever the route and whatever the breaker would have
    done, no downstream attempt is issued, nothing is slept and the breaker
    keeps its state (a rejected request is neither a failure nor a probe). *)
Theorem rate_limited_request_stops_at_limiter req w :
  redisUp env (trips w) = true →
  Sliding.MAX_REQUESTS
    < slidingCount (at_ms req) (slidingKey (ip req)) (store w) →
  let r := handle env req w in
  statusOf r.1 = Some 429 ∧
  breaker r.2 = breaker w ∧ issued r.2 = issued w ∧ slept r.2 = slept w.
Proof.
  intros Hup Hc. cbn zeta. rewrite handle_rejected by assumption.
  cbn. repeat split.
Qed.

(** X16. GET /health and GET /call-slow are always answered.  A request is
    one of these two routes here ([Route]); GET /redis-test and unmatched
    paths are outside this statement.  Whatever the store and the downstream
    do, handling such a request on its own raises nothing and sends a response
    with a body, which is one of: 200 (for GET /health always the liveness
    body), 429 with the limiter's retry body, and for GET /call-slow only, 503
    "circuit open" or 504 "Upstream failure". *)
Theorem gateway_always_answers req w :
  ∃ r, (handle env req w).1 = Ok r ∧
       res (handle env req w).2 = r ∧
       ((status r = 200 ∧ is_Some (body r) ∧
         (path req = Health → body r = Some healthBody)) ∨
        (status r = 429 ∧ body r = Some tooManySliding) ∨
        (status r = 503 ∧ body r = Some circuitOpenBody ∧ path req = CallSlow) ∨
        (status r = 504 ∧ body r = Some upstreamFailure ∧ path req = CallSlow)).
Proof.
  destruct (redisUp env (trips w)) eqn:Hup;
    [destruct (Z.lt_ge_cases Sliding.MAX_REQUESTS
                 (slidingCount (at_ms req) (slidingKey (ip req)) (store w)))
       as [Hlt|Hge]|].
  - rewrite handle_rejected by assumption. cbn zeta.
    eexists. split; [reflexivity|]. split; [reflexivity|].
    right. left. now split.
  - rewrite handle_admitted by (try assumption; lia). cbn zeta.
    rewrite route_get_res. cbn [fst snd]. eexists. split; [reflexivity|].
    split; [reflexivity|].
    unfold route. destruct (path req) eqn:Hp.
    + left. cbn. repeat split; eauto.
    + match goal with |- context [callSlow env ?n ?w0] =>
        pose proof (callSlow_res env n w0 eq_refl) as Hr;
        set (r := res (callSlow env n w0).2) in *
      end.
      cbn zeta in Hr. unfold callSlowOutcome in Hr.
      destruct (_ && _);
        [|destruct (upstream env _); [|destruct (upstream env _)]];
        injection Hr as Hs Hb; rewrite Hs, Hb.
      * right. right. left. now repeat split.
      * left. repeat split; eauto. discriminate.
      * left. repeat split; eauto. discriminate.
      * right. right. right. now repeat split.
  - rewrite handle_degraded by assumption.
    rewrite route_get_res. cbn [fst snd]. eexists. split; [reflexivity|].
    split; [reflexivity|].
    unfold route. destruct (path req) eqn:Hp.
    + left. cbn. repeat split; eauto.
    + match goal with |- context [callSlow env ?n ?w0] =>
        pose proof (callSlow_res env n w0 eq_refl) as Hr;
        set (r := res (callSlow env n w0).2) in *
      end.
      cbn zeta in Hr. unfold callSlowOutcome in Hr.
      destruct (_ && _);
        [|destruct (upstream env _); [|destruct (upstream env _)]];
        injection Hr as Hs Hb; rewrite Hs, Hb.
      * right. right. left. now repeat split.
      * left. repeat split; eauto. discriminate.
      * left. repeat split; eauto. discriminate.
      * right. right. right. now repeat split.
Qed.

End BreakerOutcomes.

Lemma success_resets_tally_witness :
  let w1 := (callSlow failsOnce 5 twoFailures).2 in
  breaker w1 = mkBreaker 0 false 3 ∧
  body (res w1) = Some slowPayload ∧
  status (res w1) = status (res twoFailures).
Proof.
  apply (success_resets_tally failsOnce 5 twoFailures slowPayload).
  - left. reflexivity.
  - right. split; [exists Timeout|]; reflexivity.
Defined.

Lemma open_breaker_shields_downstream_witness :
  let reqs := [callSlowAt "1.2.3.4" 1; healthAt "1.2.3.4" 2;
               callSlowAt "5.6.7.8" 9999] in
  let r := serve alwaysTimeout reqs trippedWorld in
  breaker r.2 = breaker trippedWorld ∧ issued r.2 = issued trippedWorld ∧
  slept r.2 = slept trippedWorld ∧
  Forall2 (λ req o, path req = CallSlow →
                    statusOf o = Some 503 ∨ statusOf o = Some 429)
          reqs r.1.
Proof.
  apply (open_breaker_shields_downstream alwaysTimeout).
  - reflexivity.
  - repeat constructor; vm_compute; reflexivity.
Defined.

Lemma rate_limited_request_stops_at_limiter_witness :
  let r := handle storeUp (callSlowAt "1.2.3.4" 6) afterFive in
  statusOf r.1 = Some 429 ∧
  breaker r.2 = breaker afterFive ∧ issued r.2 = issued afterFive ∧
  slept r.2 = slept afterFive.
Proof.
  apply (rate_limited_request_stops_at_limiter storeUp
           (callSlowAt "1.2.3.4" 6) afterFive).
  - reflexivity.
  - vm_compute. reflexivity.
Defined.

(** ** One breaker for all clients *)

Section SharedBreaker.
Context (env : Env).

Lemma record_size_bound t key s (n : nat) :
  (∀ k, (size (zset_of k s) ≤ n)%nat) →
  ∀ k, (size (zset_of k (record t key s)) ≤ S n)%nat.
Proof.
  intros Hn k. destruct (decide (k = key)) as [->|Hne].
  - rewrite record_zset. pose proof (window_after_size_le t key s).
    specialize (Hn key). lia.
  - specialize (Hn k). rewrite record_store. unfold zset_of in *. cbn.
    rewrite lookup_insert_ne by congruence.
    unfold touch. destruct (expired t key s); [|lia].
    unfold del. cbn. rewrite lookup_delete_ne by congruence. lia.
Qed.

Lemma callSlow_store now w : store (callSlow env now w).2 = store w.
Proof.
  assert (Hg : ∀ w0, store (guardedCall env now w0).2 = store w0).
  { intros w0. destruct (guardedCall_cases env now w0)
      as [(d & _ & ->)|[(d & _ & _ & ->)|(_ & _ & ->)]]; try reflexivity.
    unfold after_failure. cbn.
    destruct (FAILURE_THRESHOLD <=? _); reflexivity. }
  destruct (circuitOpen (breaker w)) eqn:Ho.
  - destruct (Z.lt_ge_cases (now - lastFailureTime (breaker w)) OPEN_TIMEOUT_MS)
      as [Hlt|Hge].
    + now rewrite callSlow_rejects.
    + rewrite callSlow_probe by assumption. now rewrite Hg.
  - rewrite callSlow_closed by exact Ho. apply Hg.
Qed.

(** A GET /call-slow on a store whose sorted sets hold at most [n] < 5
    members each passes the limiter, with or without the store answering. *)
Lemma handle_callSlow_step client t w (n : nat) :
  (∀ k, (size (zset_of k (store w)) ≤ n)%nat) → (n < 5)%nat →
  ∃ w0, breaker w0 = breaker w ∧ issued w0 = issued w ∧
        status (res w0) = 200 ∧
        (handle env (callSlowAt client t) w).1
          = Ok (res (callSlow env t w0).2) ∧
        (handle env (callSlowAt client t) w).2 = (callSlow env t w0).2 ∧
        (∀ k, (size (zset_of k (store (callSlow env t w0).2)) ≤ S n)%nat).
Proof.
  intros Hn Hlt.
  destruct (redisUp env (trips w)) eqn:Hup.
  - assert (Hc : slidingCount t (slidingKey client) (store w)
                 <= Sliding.MAX_REQUESTS).
    { unfold slidingCount, Sliding.MAX_REQUESTS.
      pose proof (window_after_size_le t (slidingKey client) (store w)).
      specialize (Hn (slidingKey client)). lia. }
    rewrite (handle_admitted env (callSlowAt client t) w Hup Hc). cbn zeta.
    rewrite route_get_res. cbn [fst snd].
    eexists. split; [|split; [|split; [|split; [reflexivity|split;
                                                 [reflexivity|]]]]];
      try reflexivity.
    intros k. change (route env (callSlowAt client t)) with (callSlow env t).
    rewrite callSlow_store. cbn. now apply record_size_bound.
  - rewrite (handle_degraded env (callSlowAt client t) w Hup).
    rewrite route_get_res. cbn [fst snd].
    eexists. split; [|split; [|split; [|split; [reflexivity|split;
                                                 [reflexivity|]]]]];
      try reflexivity.
    intros k. change (route env (callSlowAt client t)) with (callSlow env t).
    rewrite callSlow_store. cbn. specialize (Hn k). lia.
Qed.

(** X13. The breaker is one for the whole gateway, under one-at-a-time
    service: each call below is answered before the next one starts (none
    arrives while another awaits the downstream).  Starting from an empty
    store and a closed breaker, three GET /call-slow whose attempts all fail,
    from any clients, are answered 504 each; a fourth one, from any client,
    started less than OPEN_TIMEOUT_MS after the start of the third is answered
    503 without a downstream attempt: six attempts were issued in all.  This
    holds whether or not the limiter's store answers. *)
Theorem three_failures_open_for_everyone w c1 c2 c3 c4 t1 t2 t3 t4 :
  store w = emptyStore →
  breaker w = initialBreaker →
  (∀ k, (issued w ≤ k < issued w + 6)%nat → failsAt env k) →
  t4 - t3 < OPEN_TIMEOUT_MS →
  let r := serve env [callSlowAt c1 t1; callSlowAt c2 t2;
                      callSlowAt c3 t3; callSlowAt c4 t4] w in
  statusOf <$> r.1 = [Some 504; Some 504; Some 504; Some 503] ∧
  issued r.2 = (issued w + 6)%nat ∧
  breaker r.2 = mkBreaker FAILURE_THRESHOLD true t3.
Proof.
  intros Hs Hb Hf Hlt. cbn zeta. cbn [serve].
  assert (H0 : ∀ k, (size (zset_of k (store w)) ≤ 0)%nat).
  { intros k. rewrite Hs. unfold zset_of. cbn. rewrite lookup_empty. cbn.
    now rewrite map_size_empty. }
  destruct (handle_callSlow_step c1 t1 w 0 H0 ltac:(lia))
    as (a1 & Ba & Ia & Sa & R1 & W1 & N1).
  destruct (callSlow_closed_failure env t1 a1) as (B1 & I1 & S1);
    [now rewrite Ba, Hb | apply Hf; lia | apply Hf; lia |].
  rewrite Ba, Hb in B1.
  change (breaker (callSlow env t1 a1).2 = mkBreaker 1 false t1) in B1.
  destruct (handle env (callSlowAt c1 t1) w) as [o1 w1]. cbn [fst snd] in *.
  subst o1 w1. set (w1 := (callSlow env t1 a1).2) in *.
  destruct (handle_callSlow_step c2 t2 w1 1 N1 ltac:(lia))
    as (a2 & Ba2 & Ia2 & Sa2 & R2 & W2 & N2).
  destruct (callSlow_closed_failure env t2 a2) as (B2 & I2 & S2);
    [now rewrite Ba2, B1 | apply Hf; lia | apply Hf; lia |].
  rewrite Ba2, B1 in B2.
  change (breaker (callSlow env t2 a2).2 = mkBreaker 2 false t2) in B2.
  destruct (handle env (callSlowAt c2 t2) w1) as [o2 w2]. cbn [fst snd] in *.
  subst o2 w2. set (w2 := (callSlow env t2 a2).2) in *.
  destruct (handle_callSlow_step c3 t3 w2 2 N2 ltac:(lia))
    as (a3 & Ba3 & Ia3 & Sa3 & R3 & W3 & N3).
  destruct (callSlow_closed_failure env t3 a3) as (B3 & I3 & S3);
    [now rewrite Ba3, B2 | apply Hf; lia | apply Hf; lia |].
  rewrite Ba3, B2 in B3.
  change (breaker (callSlow env t3 a3).2 = mkBreaker 3 true t3) in B3.
  destruct (handle env (callSlowAt c3 t3) w2) as [o3 w3]. cbn [fst snd] in *.
  subst o3 w3. set (w3 := (callSlow env t3 a3).2) in *.
  destruct (handle_callSlow_step c4 t4 w3 3 N3 ltac:(lia))
    as (a4 & Ba4 & Ia4 & Sa4 & R4 & W4 & N4).
  assert (E4 : callSlow env t4 a4
               = (Ok tt, with_res (mkRes 503 (headers (res a4))
                                     (Some circuitOpenBody)) a4)).
  { apply callSlow_rejects; rewrite Ba4, B3; [reflexivity|exact Hlt]. }
  destruct (handle env (callSlowAt c4 t4) w3) as [o4 w4]. cbn [fst snd] in *.
  subst o4 w4. rewrite E4. cbn [fst snd fmap list_fmap statusOf res with_res status].
  rewrite S1, S2, S3. split; [reflexivity|]. cbn [issued breaker with_res].
  rewrite Ia4, Ba4, B3. split; [lia|reflexivity].
Qed.

End SharedBreaker.

Lemma three_failures_open_for_everyone_witness :
  let r := serve alwaysTimeout
             [callSlowAt "1.2.3.4" 10; callSlowAt "5.6.7.8" 20;
              callSlowAt "9.9.9.9" 30; callSlowAt "7.7.7.7" 10029]
             initialWorld in
  statusOf <$> r.1 = [Some 504; Some 504; Some 504; Some 503] ∧
  issued r.2 = 6%nat ∧
  breaker r.2 = mkBreaker FAILURE_THRESHOLD true 30.
Proof.
  apply (three_failures_open_for_everyone alwaysTimeout initialWorld).
  - reflexivity.
  - reflexivity.
  - intros k _. exists Timeout. reflexivity.
  - vm_compute. reflexivity.
Defined.

(** ** Headers of the fixed-window limiter *)

(** X9. Whenever its store calls get through, the fixed-window limiter puts three
    headers on the response, admitted or not: X-RateLimit-Limit 5,
    Retry-After 60 and an X-RateLimit-Remaining that is never negative.  A
    rejection carries Remaining 0, status 429 and the retry body; an admission
    leaves status and body alone. *)
Theorem fixed_headers env now client w :
  redisUp env (trips w) = true →
  redisUp env (S (trips w)) = true →
  let r := rateLimiter env now client w in
  headers (res r.2) !! "X-RateLimit-Limit" = Some (Num Fixed.MAX_REQUESTS) ∧
  headers (res r.2) !! "Retry-After" = Some (Num Fixed.WINDOW_SECONDS) ∧
  ∃ remaining,
    headers (res r.2) !! "X-RateLimit-Remaining" = Some (Num remaining) ∧
    0 <= remaining ∧
    (r.1 = Ok Ended →
       remaining = 0 ∧ status (res r.2) = 429 ∧
       body (res r.2) = Some tooManyFixed) ∧
    (r.1 = Ok NextCalled →
       status (res r.2) = status (res w) ∧ body (res r.2) = body (res w)).
Proof.
  intros H1 H2. cbn zeta. unfold rateLimiter, try_catch, bind, redis_call.
  rewrite H1.
  destruct (incr now (fixedKey client) (store w)) as [c s1].
  assert (Hl : ∀ (h : gmap string JsNum),
            let h' := <["Retry-After" := Num Fixed.WINDOW_SECONDS]>
                        (<["X-RateLimit-Remaining"
                             := Num (Z.max 0 (Fixed.MAX_REQUESTS - c))]>
                           (<["X-RateLimit-Limit" := Num Fixed.MAX_REQUESTS]> h)) in
            h' !! "X-RateLimit-Limit" = Some (Num Fixed.MAX_REQUESTS) ∧
            h' !! "Retry-After" = Some (Num Fixed.WINDOW_SECONDS) ∧
            h' !! "X-RateLimit-Remaining"
              = Some (Num (Z.max 0 (Fixed.MAX_REQUESTS - c)))).
  { intros h. cbn zeta. repeat split.
    - rewrite !lookup_insert_ne by discriminate. apply lookup_insert_eq.
    - apply lookup_insert_eq.
    - rewrite lookup_insert_ne by discriminate. apply lookup_insert_eq. }
  specialize (Hl (headers (res w))). cbn zeta in Hl.
  destruct Hl as (L1 & L2 & L3).
  destruct (c =? 1); cbn -[Z.ltb expire lookup insert Z.max].
  - rewrite H2.
    destruct (expire now _ Fixed.WINDOW_SECONDS s1) as [r s2].
    cbn -[Z.ltb lookup insert Z.max].
    destruct (Fixed.MAX_REQUESTS <? c) eqn:Hc;
      cbn -[lookup insert Z.max];
      (split; [exact L1|split; [exact L2|eexists; split; [exact L3|]]]);
      [apply Z.ltb_lt in Hc|];
      unfold Fixed.MAX_REQUESTS in *; repeat split; try lia; discriminate.
  - destruct (Fixed.MAX_REQUESTS <? c) eqn:Hc;
      cbn -[lookup insert Z.max];
      (split; [exact L1|split; [exact L2|eexists; split; [exact L3|]]]);
      [apply Z.ltb_lt in Hc|];
      unfold Fixed.MAX_REQUESTS in *; repeat split; try lia; discriminate.
Qed.

Lemma fixed_headers_witness :
  let r := rateLimiter storeUp 1000 "1.2.3.4" initialWorld in
  headers (res r.2) !! "X-RateLimit-Limit" = Some (Num Fixed.MAX_REQUESTS) ∧
  headers (res r.2) !! "Retry-After" = Some (Num Fixed.WINDOW_SECONDS) ∧
  ∃ remaining,
    headers (res r.2) !! "X-RateLimit-Remaining" = Some (Num remaining) ∧
    0 <= remaining ∧
    (r.1 = Ok Ended →
       remaining = 0 ∧ status (res r.2) = 429 ∧
       body (res r.2) = Some tooManyFixed) ∧
    (r.1 = Ok NextCalled →
       status (res r.2) = status (res initialWorld) ∧
       body (res r.2) = body (res initialWorld)).
Proof.
  apply (fixed_headers storeUp 1000 "1.2.3.4" initialWorld); reflexivity.
Defined.
